(** * EOF1 container header parsing (core/vm/eof.go)

    A shallow embedding of the EIP-3540 header parser of go-ethereum's
    [core/vm/eof.go], together with the properties its specification states.

    Conventions of the embedding:
    - a Go [[]byte] is a [list byte]; its capacity is taken equal to its
      length, so a slice expression beyond the length panics here as an
      index expression does (the parser guards every slice expression by
      the length; module [WithCapacity] has the trusted reader on a buffer
      with the bytes of its backing array past the length);
    - Go [int] positions and lengths are [nat] (a slice length never reaches
      the 64-bit limit), [uint16] values are [Z] with the wrap-around of the
      shift written out;
    - a Go function is a computation in [exec]: it yields a value, panics
      on an out-of-range index, or runs out of the fuel that bounds the
      section loop;
    - a Go result pair [(eof1Header, error)] is a pair whose second
      component is [None] for [nil]. *)

From Stdlib.Strings Require Import Ascii String.
From Stdlib Require Import List ZArith Lia Bool Arith.
From Stdlib.Strings Require Import Byte.
Import ListNotations.

Local Open Scope nat_scope.

(** ** Computations that may panic *)

Inductive exec (A : Type) : Type :=
| Val (a : A)
| IndexPanic
| OutOfFuel.

Arguments Val {A} a.
Arguments IndexPanic {A}.
Arguments OutOfFuel {A}.

Definition bind {A B : Type} (m : exec A) (k : A -> exec B) : exec B :=
  match m with
  | Val a => k a
  | IndexPanic => IndexPanic
  | OutOfFuel => OutOfFuel
  end.

Notation "x <- m ;; k" := (bind m (fun x => k))
  (at level 61, m at next level, right associativity).

(** [code[i]] *)
Definition index (code : list byte) (i : nat) : exec byte :=
  match nth_error code i with
  | Some b => Val b
  | None => IndexPanic
  end.

(** [code[lo:hi]] *)
Definition slice (code : list byte) (lo hi : nat) : exec (list byte) :=
  if (lo <=? hi) && (hi <=? length code)
  then Val (firstn (hi - lo) (skipn lo code))
  else IndexPanic.

(** [uint16(b)] of a byte *)
Definition u16_of_byte (b : byte) : Z := Z.of_N (Byte.to_N b).

(** [binary.BigEndian.Uint16]: [_ = b[1]; uint16(b[1]) | uint16(b[0])<<8] *)
Definition Uint16 (b : list byte) : exec Z :=
  _ <- index b 1 ;;
  b1 <- index b 1 ;;
  b0 <- index b 0 ;;
  Val (Z.lor (u16_of_byte b1) (Z.shiftl (u16_of_byte b0) 8 mod 2 ^ 16)).

(** [bytes.Equal] *)
Fixpoint bytes_Equal (a b : list byte) : bool :=
  match a, b with
  | [], [] => true
  | x :: a', y :: b' => Byte.eqb x y && bytes_Equal a' b'
  | _, _ => false
  end.

(** ** Constants and data *)

Definition eofFormatByte : byte := xef.
Definition eofMagic : list byte := [xca; xfe].
Definition eof1Version : byte := x01.

Record eof1Header : Type := mkHeader {
  codeSize : Z;
  dataSize : Z
}.

(** [eof1Header{}] *)
Definition emptyHeader : eof1Header := mkHeader 0 0.

Definition set_codeSize (v : Z) (h : eof1Header) : eof1Header :=
  mkHeader v (dataSize h).

Definition set_dataSize (v : Z) (h : eof1Header) : eof1Header :=
  mkHeader (codeSize h) v.

(** The error values the parser returns.  They are declared outside
    [eof.go]; only their being pairwise distinct matters here. *)
Inductive error : Type :=
| ErrEOF1InvalidFormatByte
| ErrEOF1InvalidMagic
| ErrEOF1InvalidVersion
| ErrEOF1CodeSectionMissing
| ErrEOF1CodeSectionSizeMissing
| ErrEOF1MultipleCodeSections
| ErrEOF1EmptyCodeSection
| ErrEOF1DataSectionBeforeCodeSection
| ErrEOF1DataSectionSizeMissing
| ErrEOF1MultipleDataSections
| ErrEOF1EmptyDataSection
| ErrEOF1UnknownSection
| ErrEOF1InvalidTotalSize.

Definition result : Type := (eof1Header * option error)%type.

(** ** Format detection *)

Definition hasFormatByte (code : list byte) : exec bool :=
  if negb (length code =? 0)
  then c0 <- index code 0 ;; Val (Byte.eqb c0 eofFormatByte)
  else Val false.

Definition hasEOFMagic (code : list byte) : exec bool :=
  let magicLen := length eofMagic in
  let codeLen := length code in
  if 1 + magicLen <=? codeLen
  then s <- slice code 1 (1 + magicLen) ;; Val (bytes_Equal s eofMagic)
  else Val false.

Definition isEOFCode (code : list byte) : exec bool :=
  f <- hasFormatByte code ;;
  if f then hasEOFMagic code else Val false.

(** ** The header parser *)

(** How control leaves one turn of the section loop. *)
Inductive loop_ctl : Type :=
| Continue (i : nat) (header : eof1Header)
| Break (i : nat) (header : eof1Header)
| Return (r : result).

(** How the section loop as a whole is left: by [break sectionLoop], by its
    condition [i < codeLen] turning false, or by a [return] in its body. *)
Inductive exit_kind : Type := ByBreak | ByCondition.

Inductive loop_exit : Type :=
| Exited (how : exit_kind) (i : nat) (header : eof1Header)
| Returned (r : result).

(** The body of [sectionLoop], entered with [i < codeLen]. *)
Definition sectionBody (code : list byte) (codeLen i : nat)
    (header : eof1Header) : exec loop_ctl :=
  sectionKind <- index code i ;;
  let i := i + 1 in
  if Byte.eqb sectionKind x00 then
    Val (Break i header)
  else if Byte.eqb sectionKind x01 then
    if negb (codeSize header =? 0)%Z then
      Val (Return (emptyHeader, Some ErrEOF1MultipleCodeSections))
    else if codeLen <? i + 2 then
      Val (Return (emptyHeader, Some ErrEOF1CodeSectionSizeMissing))
    else
      s <- slice code i (i + 2) ;;
      v <- Uint16 s ;;
      let header := set_codeSize v header in
      if (codeSize header =? 0)%Z then
        Val (Return (emptyHeader, Some ErrEOF1EmptyCodeSection))
      else
        Val (Continue (i + 2) header)
  else if Byte.eqb sectionKind x02 then
    if (codeSize header =? 0)%Z then
      Val (Return (emptyHeader, Some ErrEOF1DataSectionBeforeCodeSection))
    else if negb (dataSize header =? 0)%Z then
      Val (Return (emptyHeader, Some ErrEOF1MultipleDataSections))
    else if codeLen <? i + 2 then
      Val (Return (emptyHeader, Some ErrEOF1DataSectionSizeMissing))
    else
      s <- slice code i (i + 2) ;;
      v <- Uint16 s ;;
      let header := set_dataSize v header in
      if (dataSize header =? 0)%Z then
        Val (Return (emptyHeader, Some ErrEOF1EmptyDataSection))
      else
        Val (Continue (i + 2) header)
  else
    Val (Return (emptyHeader, Some ErrEOF1UnknownSection)).

(** [for i < codeLen { ... }], one unit of fuel per evaluation of the
    condition. *)
Fixpoint sectionLoop (fuel : nat) (code : list byte) (codeLen i : nat)
    (header : eof1Header) : exec loop_exit :=
  match fuel with
  | O => OutOfFuel
  | S fuel' =>
      if i <? codeLen then
        c <- sectionBody code codeLen i header ;;
        match c with
        | Continue i' header' => sectionLoop fuel' code codeLen i' header'
        | Break i' header' => Val (Exited ByBreak i' header')
        | Return r => Val (Returned r)
        end
      else Val (Exited ByCondition i header)
  end.

(** The checks that follow the section loop. *)
Definition postScan (codeLen i : nat) (header : eof1Header) : result :=
  if (codeSize header =? 0)%Z then
    (emptyHeader, Some ErrEOF1CodeSectionMissing)
  else if negb (Z.of_nat i + codeSize header + dataSize header
                =? Z.of_nat codeLen)%Z then
    (emptyHeader, Some ErrEOF1InvalidTotalSize)
  else
    (header, None).

(** The position of the first section-kind byte: [1 + len(eofMagic) + 1]. *)
Definition sectionsOffset : nat := 1 + length eofMagic + 1.

Definition readEOF1Header (code : list byte) : exec result :=
  f <- hasFormatByte code ;;
  if negb f then Val (emptyHeader, Some ErrEOF1InvalidFormatByte) else
  m <- hasEOFMagic code ;;
  if negb m then Val (emptyHeader, Some ErrEOF1InvalidMagic) else
  let codeLen := length code in
  let i := 1 + length eofMagic in
  bad <- (if codeLen <=? i then Val true
          else v <- index code i ;; Val (negb (Byte.eqb v eof1Version))) ;;
  if (bad : bool) then Val (emptyHeader, Some ErrEOF1InvalidVersion) else
  let i := i + 1 in
  e <- sectionLoop codeLen code codeLen i emptyHeader ;;
  match e with
  | Returned r => Val r
  | Exited _ i header => Val (postScan codeLen i header)
  end.

(** ** Validator facade and trusted reader *)

Definition validateEOF (code : list byte) : exec bool :=
  r <- readEOF1Header code ;;
  Val (match snd r with None => true | Some _ => false end).

Definition readValidEOF1Header (code : list byte) : exec eof1Header :=
  let header := emptyHeader in
  let codeSizeOffset := 3 + length eofMagic in
  s <- slice code codeSizeOffset (codeSizeOffset + 2) ;;
  v <- Uint16 s ;;
  let header := set_codeSize v header in
  k <- index code (codeSizeOffset + 2) ;;
  if Byte.eqb k x02 then
    let dataSizeOffset := codeSizeOffset + 3 in
    s' <- slice code dataSizeOffset (dataSizeOffset + 2) ;;
    v' <- Uint16 s' ;;
    Val (set_dataSize v' header)
  else Val header.

(** ** Notions used to state the properties *)

(** The value of the byte at position [j], 0 where there is none. *)
Definition byteZ (code : list byte) (j : nat) : Z :=
  match nth_error code j with
  | Some b => u16_of_byte b
  | None => 0%Z
  end.

(** The big-endian 16-bit word at positions [j], [j + 1]. *)
Definition be16 (code : list byte) (j : nat) : Z :=
  (256 * byteZ code j + byteZ code (j + 1))%Z.

(** What the parser does on a Code section kind read at position [i]. *)
Definition codeSectionRule (code : list byte) (i : nat) (header : eof1Header)
    : loop_ctl :=
  if negb (codeSize header =? 0)%Z then
    Return (emptyHeader, Some ErrEOF1MultipleCodeSections)
  else if length code <? i + 3 then
    Return (emptyHeader, Some ErrEOF1CodeSectionSizeMissing)
  else if (be16 code (i + 1) =? 0)%Z then
    Return (emptyHeader, Some ErrEOF1EmptyCodeSection)
  else Continue (i + 3) (set_codeSize (be16 code (i + 1)) header).

(** The rule for the Data section kind, in the words of the specification:
    the kind byte has been read at position [i], so the cursor stands at
    [i + 1]; "no code section recorded" is a zero [codeSize], "a data section
    already recorded" a nonzero [dataSize]; the bytes that remain are those
    from the cursor to the end of the buffer. *)
Definition dataSectionRule (code : list byte) (i : nat) (header : eof1Header)
    : loop_ctl :=
  let cursor := i + 1 in
  let remaining := length code - cursor in
  if (codeSize header =? 0)%Z then
    Return (emptyHeader, Some ErrEOF1DataSectionBeforeCodeSection)
  else if negb (dataSize header =? 0)%Z then
    Return (emptyHeader, Some ErrEOF1MultipleDataSections)
  else if remaining <? 2 then
    Return (emptyHeader, Some ErrEOF1DataSectionSizeMissing)
  else
    let size := (256 * byteZ code cursor + byteZ code (cursor + 1))%Z in
    if (size =? 0)%Z then
      Return (emptyHeader, Some ErrEOF1EmptyDataSection)
    else Continue (cursor + 2) (mkHeader (codeSize header) size).

(** The format byte, the magic and the version are as required: the parser
    reaches its section loop. *)
Definition reachesScan (code : list byte) : Prop :=
  hasFormatByte code = Val true /\
  hasEOFMagic code = Val true /\
  nth_error code (1 + length eofMagic) = Some eof1Version.

(** The section loop as [readEOF1Header] runs it. *)
Definition scanned (code : list byte) : exec loop_exit :=
  sectionLoop (length code) code (length code) sectionsOffset emptyHeader.

(** The sizes a header holds are 16-bit values. *)
Definition uint16_header (h : eof1Header) : Prop :=
  (0 <= codeSize h < 65536)%Z /\ (0 <= dataSize h < 65536)%Z.

(** The total-size rule read on its own, without the check that comes
    before it: with whatever cursor and header the section loop is left, a
    total other than the length of the buffer fails with
    [ErrEOF1InvalidTotalSize]. *)
Definition anyMismatchFailsTotalSize (code : list byte) : Prop :=
  forall how i hd,
    reachesScan code ->
    scanned code = Val (Exited how i hd) ->
    (Z.of_nat i + codeSize hd + dataSize hd <> Z.of_nat (length code))%Z ->
    readEOF1Header code = Val (emptyHeader, Some ErrEOF1InvalidTotalSize).

(** ** Concrete buffers *)

(** EFCAFE010100010000 *)
Definition minimalContainer : list byte :=
  [xef; xca; xfe; x01; x01; x00; x01; x00; x00].

(** EFCAFE01010002020001006000AA *)
Definition codeAndDataContainer : list byte :=
  [xef; xca; xfe; x01; x01; x00; x02; x02; x00; x01; x00; x60; x00; xaa].

(** EFCAFE01010002006000DEADBEEF: trailing bytes after the code *)
Definition trailingBytesContainer : list byte :=
  [xef; xca; xfe; x01; x01; x00; x02; x00; x60; x00; xde; xad; xbe; xef].

(** EFCAFE01010002: no section terminator *)
Definition unterminatedContainer : list byte :=
  [xef; xca; xfe; x01; x01; x00; x02].

(** EFCAFE010000: a terminator with no section before it, and one more
    byte *)
Definition bareTerminatorContainer : list byte :=
  [xef; xca; xfe; x01; x00; x00].

(** ** Notions used for the further properties *)

(** The turns the section loop can still take once [header] is what has
    been recorded: a Code turn needs a zero [codeSize], a Data turn a
    nonzero [codeSize] and a zero [dataSize], and any other turn leaves the
    loop. *)
Definition turnsLeft (header : eof1Header) : nat :=
  if (codeSize header =? 0)%Z then 3
  else if (dataSize header =? 0)%Z then 2
  else 1.

(** The errors of the checks that come before the section loop. *)
Definition prefixError (e : error) : bool :=
  match e with
  | ErrEOF1InvalidFormatByte | ErrEOF1InvalidMagic | ErrEOF1InvalidVersion =>
      true
  | _ => false
  end.

(** The errors that tell that no code section has been recorded. *)
Definition firstDeclarationError (e : error) : bool :=
  match e with
  | ErrEOF1CodeSectionMissing | ErrEOF1CodeSectionSizeMissing
  | ErrEOF1EmptyCodeSection | ErrEOF1DataSectionBeforeCodeSection => true
  | _ => false
  end.

(** What [readEOF1Header] returns once the section loop has been left. *)
Definition afterLoop (codeLen : nat) (e : loop_exit) : result :=
  match e with
  | Returned r => r
  | Exited _ i header => postScan codeLen i header
  end.

(** The section loop, as [readEOF1Header] runs it on [code], comes to the
    head of a turn with the cursor at [i] and [header] recorded: it starts
    at [sectionsOffset] with the empty header once the prefix is right, and
    goes from one turn to the next when the body does not leave the loop. *)
Inductive scanReaches (code : list byte) : nat -> eof1Header -> Prop :=
| scanReaches_start :
    reachesScan code ->
    scanReaches code sectionsOffset emptyHeader
| scanReaches_turn (i : nat) (header : eof1Header)
    (i' : nat) (header' : eof1Header) :
    scanReaches code i header ->
    i < length code ->
    sectionBody code (length code) i header = Val (Continue i' header') ->
    scanReaches code i' header'.

(** EFCAFE01010002020004020004006000AABBCCDDAABBCCDD: two data sections *)
Definition twoDataContainer : list byte :=
  [xef; xca; xfe; x01; x01; x00; x02; x02; x00; x04; x02; x00; x04; x00;
   x60; x00; xaa; xbb; xcc; xdd; xaa; xbb; xcc; xdd].

(** ** The trusted reader on a buffer with spare capacity *)

Module WithCapacity.

(** [code[lo:hi]] where the backing array of [code] holds the bytes [spare]
    after the [length code] bytes of the buffer, so that the capacity is
    [length code + length spare]: a slice expression is checked against the
    capacity, and what it yields past the length are the bytes of the
    backing array. *)
Definition slice (code spare : list byte) (lo hi : nat) : exec (list byte) :=
  if (lo <=? hi) && (hi <=? length code + length spare)
  then Val (firstn (hi - lo) (skipn lo (code ++ spare)))
  else IndexPanic.

(** [readValidEOF1Header]: the slice expressions are checked against the
    capacity, the index expression [code[codeSizeOffset+2]] against the
    length. *)
Definition readValidEOF1Header (code spare : list byte) : exec eof1Header :=
  let header := emptyHeader in
  let codeSizeOffset := 3 + length eofMagic in
  s <- slice code spare codeSizeOffset (codeSizeOffset + 2) ;;
  v <- Uint16 s ;;
  let header := set_codeSize v header in
  k <- index code (codeSizeOffset + 2) ;;
  if Byte.eqb k x02 then
    let dataSizeOffset := codeSizeOffset + 3 in
    s' <- slice code spare dataSizeOffset (dataSizeOffset + 2) ;;
    v' <- Uint16 s' ;;
    Val (set_dataSize v' header)
  else Val header.

End WithCapacity.

(** ** The tests of the repository (eof_test.go) *)

(** [common.Hex2Bytes], declared outside these files: the bytes a string of
    hexadecimal digits stands for, two digits a byte, up to the first
    character that is not a digit. *)
Definition fromHexChar (c : ascii) : option N :=
  let n := N_of_ascii c in
  if (48 <=? n)%N && (n <=? 57)%N then Some (n - 48)%N
  else if (97 <=? n)%N && (n <=? 102)%N then Some (n - 97 + 10)%N
  else if (65 <=? n)%N && (n <=? 70)%N then Some (n - 65 + 10)%N
  else None.

Fixpoint Hex2Bytes (s : string) : list byte :=
  match s with
  | String a (String b rest) =>
      match fromHexChar a, fromHexChar b with
      | Some hi, Some lo =>
          match Byte.of_N (hi * 16 + lo) with
          | Some x => x :: Hex2Bytes rest
          | None => []
          end
      | _, _ => []
      end
  | _ => []
  end.

Module Tests.

Section WithMessages.

(** The [Error()] method of the error values: their messages are declared
    outside these files. *)
Variable Error : error -> string.

Record eof1Test : Type := {
  code : string;
  codeSize : Z;
  dataSize : Z
}.

Definition eof1ValidTests : list eof1Test := [
  {| code := "EFCAFE010100010000"; codeSize := 1; dataSize := 0 |};
  {| code := "EFCAFE01010002006000"; codeSize := 2; dataSize := 0 |};
  {| code := "EFCAFE01010002020001006000AA"; codeSize := 2; dataSize := 1 |};
  {| code := "EFCAFE01010002020004006000AABBCCDD";
     codeSize := 2; dataSize := 4 |};
  {| code := "EFCAFE010100040200020060006001AABB";
     codeSize := 4; dataSize := 2 |};
  {| code := "EFCAFE0101000602000400600060016002AABBCCDD";
     codeSize := 6; dataSize := 4 |}
].

Record eof1InvalidTest : Type := {
  icode : string;
  error : string
}.

(** Codes starting with something else other than EF + magic *)
Definition notEOFTests : list eof1InvalidTest := [
  {| icode := ""; error := Error ErrEOF1InvalidFormatByte |};
  {| icode := "FE"; error := Error ErrEOF1InvalidFormatByte |};
  {| icode := "FECAFE01010002020004006000AABBCCDD";
     error := Error ErrEOF1InvalidFormatByte |};
  {| icode := "EF"; error := Error ErrEOF1InvalidMagic |};
  {| icode := "EFCA"; error := Error ErrEOF1InvalidMagic |};
  {| icode := "EFCAFF"; error := Error ErrEOF1InvalidMagic |};
  {| icode := "EFCAFF01010002020004006000AABBCCDD";
     error := Error ErrEOF1InvalidMagic |}
].

(** Codes starting with EF + magic, but the rest is invalid *)
Definition eof1InvalidTests : list eof1InvalidTest := [
  {| icode := "EFCAFE"; error := Error ErrEOF1InvalidVersion |};
  {| icode := "EFCAFE00"; error := Error ErrEOF1InvalidVersion |};
  {| icode := "EFCAFE02"; error := Error ErrEOF1InvalidVersion |};
  {| icode := "EFCAFE00010002020004006000AABBCCDD";
     error := Error ErrEOF1InvalidVersion |};
  {| icode := "EFCAFE01"; error := Error ErrEOF1CodeSectionMissing |};
  {| icode := "EFCAFE0100"; error := Error ErrEOF1CodeSectionMissing |};
  {| icode := "EFCAFE0101"; error := Error ErrEOF1CodeSectionSizeMissing |};
  {| icode := "EFCAFE010100";
     error := Error ErrEOF1CodeSectionSizeMissing |};
  {| icode := "EFCAFE01010002"; error := Error ErrEOF1InvalidTotalSize |};
  {| icode := "EFCAFE0101000200"; error := Error ErrEOF1InvalidTotalSize |};
  {| icode := "EFCAFE010100020060";
     error := Error ErrEOF1InvalidTotalSize |};
  {| icode := "EFCAFE01010002006000DEADBEEF";
     error := Error ErrEOF1InvalidTotalSize |};
  {| icode := "EFCAFE010100020100020060006000";
     error := Error ErrEOF1MultipleCodeSections |};
  {| icode := "EFCAFE0101000000"; error := Error ErrEOF1EmptyCodeSection |};
  {| icode := "EFCAFE0101000002000200AABB";
     error := Error ErrEOF1EmptyCodeSection |};
  {| icode := "EFCAFE0102000401000200AABBCCDD6000";
     error := Error ErrEOF1DataSectionBeforeCodeSection |};
  {| icode := "EFCAFE01020004AABBCCDD";
     error := Error ErrEOF1DataSectionBeforeCodeSection |};
  {| icode := "EFCAFE0101000202";
     error := Error ErrEOF1DataSectionSizeMissing |};
  {| icode := "EFCAFE010100020200";
     error := Error ErrEOF1DataSectionSizeMissing |};
  {| icode := "EFCAFE01010002020004";
     error := Error ErrEOF1InvalidTotalSize |};
  {| icode := "EFCAFE01010002020004006000";
     error := Error ErrEOF1InvalidTotalSize |};
  {| icode := "EFCAFE01010002020004006000AABBCC";
     error := Error ErrEOF1InvalidTotalSize |};
  {| icode := "EFCAFE01010002020004006000AABBCCDDEE";
     error := Error ErrEOF1InvalidTotalSize |};
  {| icode := "EFCAFE01010002020000006000";
     error := Error ErrEOF1EmptyDataSection |};
  {| icode := "EFCAFE01010002020004020004006000AABBCCDDAABBCCDD";
     error := Error ErrEOF1MultipleDataSections |};
  {| icode := "EFCAFE01010002030004006000AABBCCDD";
     error := Error ErrEOF1UnknownSection |}
].

(** The state of a test is whether it has failed: [t.Errorf] marks it
    failed and goes on, [t.Fatalf] marks it failed and ends it. *)

(** The loop over [eof1ValidTests] of [TestReadEOF1Header]. *)
Fixpoint readValidLoop (tests : list eof1Test) (failed : bool) : exec bool :=
  match tests with
  | [] => Val failed
  | test :: rest =>
      r <- readEOF1Header (Hex2Bytes (code test)) ;;
      let '(mkHeader headerCodeSize headerDataSize, err) := r in
      let failed := match err with Some _ => true | None => failed end in
      let failed :=
        if negb (headerCodeSize =? codeSize test)%Z then true else failed in
      let failed :=
        if negb (headerDataSize =? dataSize test)%Z then true else failed in
      readValidLoop rest failed
  end.

(** The loop over [invalidTests] of [TestReadEOF1Header]. *)
Fixpoint readInvalidLoop (tests : list eof1InvalidTest) (failed : bool)
    : exec bool :=
  match tests with
  | [] => Val failed
  | test :: rest =>
      r <- readEOF1Header (Hex2Bytes (icode test)) ;;
      match snd r with
      | None => Val true
      | Some err =>
          let failed :=
            if negb (String.eqb (Error err) (error test)) then true
            else failed in
          readInvalidLoop rest failed
      end
  end.

Definition TestReadEOF1Header : exec bool :=
  failed <- readValidLoop eof1ValidTests false ;;
  let invalidTests := notEOFTests ++ eof1InvalidTests in
  readInvalidLoop invalidTests failed.

(** The two loops of [TestValidateEOF]. *)
Fixpoint validateValidLoop (tests : list eof1Test) (failed : bool)
    : exec bool :=
  match tests with
  | [] => Val failed
  | test :: rest =>
      ok <- validateEOF (Hex2Bytes (code test)) ;;
      let failed := if negb ok then true else failed in
      validateValidLoop rest failed
  end.

Fixpoint validateInvalidLoop (tests : list eof1InvalidTest) (failed : bool)
    : exec bool :=
  match tests with
  | [] => Val failed
  | test :: rest =>
      ok <- validateEOF (Hex2Bytes (icode test)) ;;
      let failed := if (ok : bool) then true else failed in
      validateInvalidLoop rest failed
  end.

Definition TestValidateEOF : exec bool :=
  failed <- validateValidLoop eof1ValidTests false ;;
  let invalidTests := notEOFTests ++ eof1InvalidTests in
  validateInvalidLoop invalidTests failed.

End WithMessages.

End Tests.

(** ** Proof automation *)

Ltac kind_cases k :=
  destruct (Byte.byte_eq_dec k x00) as [->|?];
  [| destruct (Byte.byte_eq_dec k x01) as [->|?];
     [| destruct (Byte.byte_eq_dec k x02) as [->|?] ] ].

Ltac hdr_simpl :=
  unfold set_codeSize, set_dataSize, emptyHeader in *;
  cbn [codeSize dataSize] in *.

Ltac table_iff Hr Hs :=
  rewrite Hr; split;
  [ let H := fresh "H" in
    intros H;
    first [ discriminate H
          | injection H as ->; cbn in Hs; discriminate Hs
          | intuition (congruence || lia) ]
  | let Hc := fresh "Hc" in
    intros Hc;
    first [ reflexivity | exfalso; intuition (congruence || lia) ] ].

(** ** The vectors of the repository's tests *)

Example readEOF1Header_code_and_data :
  readEOF1Header codeAndDataContainer = Val (mkHeader 2 1, None).
Proof. reflexivity. Qed.

Example readEOF1Header_trailing_bytes :
  readEOF1Header trailingBytesContainer
  = Val (emptyHeader, Some ErrEOF1InvalidTotalSize).
Proof. reflexivity. Qed.

Example readEOF1Header_no_terminator :
  readEOF1Header unterminatedContainer
  = Val (emptyHeader, Some ErrEOF1InvalidTotalSize).
Proof. reflexivity. Qed.

(** EFCAFE0100 *)
Example readEOF1Header_no_code_section :
  readEOF1Header [xef; xca; xfe; x01; x00]
  = Val (emptyHeader, Some ErrEOF1CodeSectionMissing).
Proof. reflexivity. Qed.

(** EFCAFE02 *)
Example readEOF1Header_version2 :
  readEOF1Header [xef; xca; xfe; x02]
  = Val (emptyHeader, Some ErrEOF1InvalidVersion).
Proof. reflexivity. Qed.

(** EFCAFE010100020100020060006000 *)
Example readEOF1Header_two_code :
  readEOF1Header
    [xef; xca; xfe; x01; x01; x00; x02; x01; x00; x02; x00; x60; x00;
     x60; x00]
  = Val (emptyHeader, Some ErrEOF1MultipleCodeSections).
Proof. reflexivity. Qed.

(** EFCAFE0101000000 *)
Example readEOF1Header_empty_code :
  readEOF1Header [xef; xca; xfe; x01; x01; x00; x00; x00]
  = Val (emptyHeader, Some ErrEOF1EmptyCodeSection).
Proof. reflexivity. Qed.

(** EFCAFE01020004AABBCCDD *)
Example readEOF1Header_data_first :
  readEOF1Header [xef; xca; xfe; x01; x02; x00; x04; xaa; xbb; xcc; xdd]
  = Val (emptyHeader, Some ErrEOF1DataSectionBeforeCodeSection).
Proof. reflexivity. Qed.

(** EFCAFE010100020200 *)
Example readEOF1Header_data_size_cut :
  readEOF1Header [xef; xca; xfe; x01; x01; x00; x02; x02; x00]
  = Val (emptyHeader, Some ErrEOF1DataSectionSizeMissing).
Proof. reflexivity. Qed.

(** EFCAFE01010002020000006000 *)
Example readEOF1Header_empty_data :
  readEOF1Header
    [xef; xca; xfe; x01; x01; x00; x02; x02; x00; x00; x00; x60; x00]
  = Val (emptyHeader, Some ErrEOF1EmptyDataSection).
Proof. reflexivity. Qed.

(** EFCAFE01010002020004020004006000AABBCCDDAABBCCDD *)
Example readEOF1Header_two_data :
  readEOF1Header
    [xef; xca; xfe; x01; x01; x00; x02; x02; x00; x04; x02; x00; x04; x00;
     x60; x00; xaa; xbb; xcc; xdd; xaa; xbb; xcc; xdd]
  = Val (emptyHeader, Some ErrEOF1MultipleDataSections).
Proof. reflexivity. Qed.

(** EFCAFE01010002030004006000AABBCCDD *)
Example readEOF1Header_section3 :
  readEOF1Header
    [xef; xca; xfe; x01; x01; x00; x02; x03; x00; x04; x00; x60; x00;
     xaa; xbb; xcc; xdd]
  = Val (emptyHeader, Some ErrEOF1UnknownSection).
Proof. reflexivity. Qed.

(** EFCAFE0101000602000400600060016002AABBCCDD *)
Example readValidEOF1Header_code6_data4 :
  readValidEOF1Header
    [xef; xca; xfe; x01; x01; x00; x06; x02; x00; x04; x00; x60; x00;
     x60; x01; x60; x02; xaa; xbb; xcc; xdd]
  = Val (mkHeader 6 4).
Proof. reflexivity. Qed.

(** ** Bytes and big-endian words *)

Lemma byte_eqb_refl (b : byte) : Byte.eqb b b = true.
Proof. now apply Byte.byte_dec_lb. Qed.

Lemma byte_eqb_neq (a b : byte) : a <> b -> Byte.eqb a b = false.
Proof.
  intros Hab. destruct (Byte.eqb a b) eqn:E; [|reflexivity].
  now apply Byte.byte_dec_bl in E.
Qed.

Lemma byte_eqb_eq (a b : byte) : Byte.eqb a b = true <-> a = b.
Proof.
  split; [apply Byte.byte_dec_bl | apply Byte.byte_dec_lb].
Qed.

Lemma u16_of_byte_range (b : byte) : (0 <= u16_of_byte b < 256)%Z.
Proof.
  unfold u16_of_byte. pose proof (Byte.to_N_bounded b) as Hb. lia.
Qed.

Lemma byteZ_range code j : (0 <= byteZ code j < 256)%Z.
Proof.
  unfold byteZ. destruct (nth_error code j) as [b|].
  - apply u16_of_byte_range.
  - lia.
Qed.

Lemma be16_range code j : (0 <= be16 code j < 65536)%Z.
Proof.
  unfold be16.
  pose proof (byteZ_range code j). pose proof (byteZ_range code (j + 1)). lia.
Qed.

Lemma lor_shift_bytes (lo hi : Z) :
  (0 <= lo < 256)%Z -> (0 <= hi < 256)%Z ->
  Z.lor lo (Z.shiftl hi 8 mod 2 ^ 16) = (256 * hi + lo)%Z.
Proof.
  intros Hlo Hhi.
  rewrite Z.shiftl_mul_pow2 by lia.
  change (2 ^ 8)%Z with 256%Z. change (2 ^ 16)%Z with 65536%Z.
  rewrite Z.mod_small by lia.
  assert (Hland : Z.land lo (hi * 256) = 0%Z).
  { apply Z.bits_inj'. intros n Hn.
    rewrite Z.land_spec, Z.bits_0.
    destruct (Z.ltb_spec n 8) as [Hlt|Hge].
    - replace (hi * 256)%Z with (hi * 2 ^ 8)%Z by reflexivity.
      rewrite Z.mul_pow2_bits_low by lia. apply andb_false_r.
    - replace (Z.testbit lo n) with false; [reflexivity|].
      symmetry. destruct (Z.eq_dec lo 0) as [->|Hnz].
      + apply Z.bits_0.
      + apply Z.bits_above_log2; [lia|].
        apply Z.log2_lt_pow2; [lia|].
        apply Z.lt_le_trans with (2 ^ 8)%Z; [change (2 ^ 8)%Z with 256%Z; lia|].
        apply Z.pow_le_mono_r; lia. }
  rewrite <- Z.lxor_lor by exact Hland.
  rewrite <- Z.add_nocarry_lxor by exact Hland.
  lia.
Qed.

(** ** Indexing and slicing within bounds *)

Lemma index_lt code i :
  i < length code -> exists b, nth_error code i = Some b /\ index code i = Val b.
Proof.
  intros Hi. unfold index.
  destruct (nth_error code i) as [b|] eqn:E.
  - now exists b.
  - apply nth_error_None in E. lia.
Qed.

Lemma index_some code i b : nth_error code i = Some b -> index code i = Val b.
Proof. intros E. unfold index. now rewrite E. Qed.

Lemma skipn_two (code : list byte) : forall i,
  i + 2 <= length code ->
  exists a b rest,
    skipn i code = a :: b :: rest /\
    nth_error code i = Some a /\ nth_error code (i + 1) = Some b.
Proof.
  induction code as [|c code IH]; intros i Hi; simpl in Hi.
  - lia.
  - destruct i as [|i].
    + destruct code as [|d code]; simpl in Hi; [lia|].
      now exists c, d, code.
    + destruct (IH i) as (a & b & rest & Hs & Ha & Hb); [lia|].
      exists a, b, rest. simpl. auto.
Qed.

Lemma read_be16 {B : Type} code i (k : Z -> exec B) :
  i + 2 <= length code ->
  (s <- slice code i (i + 2) ;; v <- Uint16 s ;; k v) = k (be16 code i).
Proof.
  intros Hi. unfold slice.
  replace (i <=? i + 2) with true by (symmetry; apply Nat.leb_le; lia).
  replace (i + 2 <=? length code) with true by (symmetry; now apply Nat.leb_le).
  replace (i + 2 - i) with 2 by lia.
  destruct (skipn_two code i Hi) as (a & b & rest & Hs & Ha & Hb).
  rewrite Hs. cbn [firstn bind andb]. unfold Uint16, index.
  cbn [nth_error bind].
  unfold be16, byteZ. rewrite Ha, Hb. f_equal.
  apply lor_shift_bytes; apply u16_of_byte_range.
Qed.

(** ** One turn of the section loop, by section kind *)

Lemma sectionBody_terminator code i header :
  nth_error code i = Some x00 ->
  sectionBody code (length code) i header = Val (Break (i + 1) header).
Proof.
  intros E. unfold sectionBody. rewrite (index_some _ _ _ E). reflexivity.
Qed.

Lemma sectionBody_code code i header :
  nth_error code i = Some x01 ->
  sectionBody code (length code) i header
  = Val (codeSectionRule code i header).
Proof.
  intros E. unfold sectionBody, codeSectionRule.
  rewrite (index_some _ _ _ E). cbn [bind].
  change (Byte.eqb x01 x00) with false. change (Byte.eqb x01 x01) with true.
  cbv iota.
  destruct (negb (codeSize header =? 0)%Z); [reflexivity|].
  replace (i + 1 + 2) with (i + 3) by lia.
  destruct (Nat.ltb_spec (length code) (i + 3)) as [Hlt|Hge]; [reflexivity|].
  replace (i + 3) with (i + 1 + 2) in * by lia.
  rewrite read_be16 by lia. cbn [bind]. unfold set_codeSize at 1. cbn [codeSize].
  destruct (be16 code (i + 1) =? 0)%Z; reflexivity.
Qed.

Lemma sectionBody_data code i header :
  nth_error code i = Some x02 ->
  sectionBody code (length code) i header
  = Val (dataSectionRule code i header).
Proof.
  intros E. unfold sectionBody, dataSectionRule.
  rewrite (index_some _ _ _ E). cbn [bind].
  change (Byte.eqb x02 x00) with false. change (Byte.eqb x02 x01) with false.
  change (Byte.eqb x02 x02) with true. cbv iota zeta.
  destruct (codeSize header =? 0)%Z; [reflexivity|].
  destruct (negb (dataSize header =? 0)%Z); [reflexivity|].
  destruct (Nat.ltb_spec (length code) (i + 1 + 2)) as [Hlt|Hge];
    destruct (Nat.ltb_spec (length code - (i + 1)) 2) as [Hlt'|Hge'];
    try lia; [reflexivity|].
  rewrite read_be16 by lia. cbn [bind]. unfold set_dataSize. cbn [dataSize].
  fold (be16 code (i + 1)).
  destruct (be16 code (i + 1) =? 0)%Z; reflexivity.
Qed.

Lemma sectionBody_unknown code i header k :
  nth_error code i = Some k ->
  k <> x00 -> k <> x01 -> k <> x02 ->
  sectionBody code (length code) i header
  = Val (Return (emptyHeader, Some ErrEOF1UnknownSection)).
Proof.
  intros E H0 H1 H2. unfold sectionBody.
  rewrite (index_some _ _ _ E). cbn [bind].
  now rewrite !byte_eqb_neq by assumption.
Qed.

(** Every turn of the loop either breaks on a terminator, returns the empty
    header with an error, or goes on three bytes further with a recorded
    code section. *)
Lemma sectionBody_cases code i header :
  i < length code ->
  (nth_error code i = Some x00 /\
   sectionBody code (length code) i header = Val (Break (i + 1) header))
  \/ (exists e,
       sectionBody code (length code) i header
       = Val (Return (emptyHeader, Some e)))
  \/ (exists header',
       sectionBody code (length code) i header
       = Val (Continue (i + 3) header') /\
       i + 3 <= length code /\ codeSize header' <> 0%Z).
Proof.
  intros Hi. destruct (index_lt code i Hi) as (k & Hk & _).
  kind_cases k.
  - left. split; [assumption|]. now apply sectionBody_terminator.
  - right. rewrite (sectionBody_code _ _ _ Hk). unfold codeSectionRule.
    destruct (codeSize header =? 0)%Z eqn:Ec; cbn [negb]; [|left; eauto].
    destruct (Nat.ltb_spec (length code) (i + 3)); [left; eauto|].
    destruct (be16 code (i + 1) =? 0)%Z eqn:Ev; [left; eauto|].
    right. eexists. split; [reflexivity|]. split; [assumption|].
    cbn. now apply Z.eqb_neq.
  - right. rewrite (sectionBody_data _ _ _ Hk). unfold dataSectionRule.
    cbv zeta.
    destruct (codeSize header =? 0)%Z eqn:Ec; [left; eauto|].
    destruct (dataSize header =? 0)%Z eqn:Ed; cbn [negb]; [|left; eauto].
    destruct (Nat.ltb_spec (length code - (i + 1)) 2); [left; eauto|].
    fold (be16 code (i + 1)).
    destruct (be16 code (i + 1) =? 0)%Z eqn:Ev; [left; eauto|].
    right. replace (i + 1 + 2) with (i + 3) by lia.
    eexists. split; [reflexivity|]. split; [lia|].
    cbn. now apply Z.eqb_neq.
  - right. left. eexists. now apply sectionBody_unknown with k.
Qed.

(** ** The section loop *)

Section SectionLoop.

Variable code : list byte.

Lemma sectionLoop_step fuel i header :
  i < length code ->
  sectionLoop (S fuel) code (length code) i header
  = (c <- sectionBody code (length code) i header ;;
     match c with
     | Continue i' header' => sectionLoop fuel code (length code) i' header'
     | Break i' header' => Val (Exited ByBreak i' header')
     | Return r => Val (Returned r)
     end).
Proof.
  intros Hi. cbn [sectionLoop].
  now replace (i <? length code) with true by (symmetry; now apply Nat.ltb_lt).
Qed.

Lemma sectionLoop_stop fuel i header :
  length code <= i ->
  sectionLoop (S fuel) code (length code) i header
  = Val (Exited ByCondition i header).
Proof.
  intros Hi. cbn [sectionLoop].
  now replace (i <? length code) with false by (symmetry; now apply Nat.ltb_ge).
Qed.

(** The loop ends within the fuel [readEOF1Header] gives it, and never
    panics: each turn moves the cursor forward. *)
Lemma sectionLoop_total : forall fuel i header,
  length code - i < fuel ->
  exists e, sectionLoop fuel code (length code) i header = Val e.
Proof.
  induction fuel as [|fuel IH]; intros i header Hf; [lia|].
  destruct (Nat.lt_ge_cases i (length code)) as [Hi|Hi].
  - rewrite sectionLoop_step by assumption.
    destruct (sectionBody_cases code i header Hi)
      as [[_ ->]|[[e ->]|(h' & -> & Hle & _)]]; cbn [bind]; eauto.
    apply IH. lia.
  - rewrite sectionLoop_stop by assumption. eauto.
Qed.

(** A [return] inside the loop always carries the empty header and an
    error. *)
Lemma sectionLoop_returned : forall fuel i header r,
  sectionLoop fuel code (length code) i header = Val (Returned r) ->
  exists e, r = (emptyHeader, Some e).
Proof.
  induction fuel as [|fuel IH]; intros i header r H; [discriminate|].
  destruct (Nat.lt_ge_cases i (length code)) as [Hi|Hi].
  - rewrite sectionLoop_step in H by assumption.
    destruct (sectionBody_cases code i header Hi)
      as [[_ E]|[[e E]|(h' & E & _)]]; rewrite E in H; cbn [bind] in H.
    + discriminate.
    + inversion H. eauto.
    + eapply IH. eassumption.
  - rewrite sectionLoop_stop in H by assumption. discriminate.
Qed.

(** Leaving the loop by its condition means the cursor stands at the end of
    the buffer; leaving it by [break] means the byte before the cursor is a
    terminator. *)
Lemma sectionLoop_exited : forall fuel i header how j header',
  i <= length code ->
  sectionLoop fuel code (length code) i header = Val (Exited how j header') ->
  match how with
  | ByCondition => j = length code
  | ByBreak => 0 < j <= length code /\ nth_error code (j - 1) = Some x00
  end.
Proof.
  induction fuel as [|fuel IH]; intros i header how j header' Hle H;
    [discriminate|].
  destruct (Nat.lt_ge_cases i (length code)) as [Hi|Hi].
  - rewrite sectionLoop_step in H by assumption.
    destruct (sectionBody_cases code i header Hi)
      as [[Hk E]|[[e E]|(h' & E & Hle' & _)]]; rewrite E in H; cbn [bind] in H.
    + inversion H; subst. replace (i + 1 - 1) with i by lia.
      split; [lia|assumption].
    + discriminate.
    + eapply IH; [|eassumption]. assumption.
  - rewrite sectionLoop_stop in H by assumption. inversion H; subst. lia.
Qed.

End SectionLoop.

(** ** The fixed prefix *)

Lemma hasFormatByte_eq code :
  hasFormatByte code
  = Val (match code with
         | c0 :: _ => Byte.eqb c0 eofFormatByte
         | [] => false
         end).
Proof. destruct code; reflexivity. Qed.

Lemma hasEOFMagic_eq code :
  hasEOFMagic code
  = Val (match code with
         | _ :: c1 :: c2 :: _ => Byte.eqb c1 xca && Byte.eqb c2 xfe
         | _ => false
         end).
Proof.
  destruct code as [|c0 [|c1 [|c2 rest]]]; try reflexivity.
  unfold hasEOFMagic, slice, eofMagic.
  cbn [length Nat.add Nat.leb Nat.sub andb skipn firstn bind bytes_Equal].
  now rewrite andb_true_r.
Qed.

Lemma reachesScan_prefix code :
  reachesScan code <-> exists rest, code = xef :: xca :: xfe :: x01 :: rest.
Proof.
  unfold reachesScan. rewrite hasFormatByte_eq, hasEOFMagic_eq. split.
  - intros (Hf & Hm & Hv).
    destruct code as [|c0 [|c1 [|c2 [|c3 rest]]]]; try discriminate.
    injection Hf as Hf. injection Hm as Hm. injection Hv as Hv.
    apply andb_true_iff in Hm as [H1 H2].
    apply byte_eqb_eq in Hf, H1, H2. subst. now exists rest.
  - intros (rest & ->). repeat split.
Qed.

Lemma readEOF1Header_scan code :
  reachesScan code ->
  readEOF1Header code
  = (e <- scanned code ;;
     match e with
     | Returned r => Val r
     | Exited _ i header => Val (postScan (length code) i header)
     end).
Proof.
  intros H. apply reachesScan_prefix in H as (rest & ->). reflexivity.
Qed.

(** Without the prefix the parser returns one of its first three errors. *)
Lemma readEOF1Header_no_scan code :
  ~ reachesScan code ->
  exists e, readEOF1Header code = Val (emptyHeader, Some e).
Proof.
  intros Hn. unfold readEOF1Header.
  rewrite hasFormatByte_eq, hasEOFMagic_eq. cbn [bind].
  destruct code as [|c0 code]; [cbn; eauto|].
  destruct (Byte.byte_eq_dec c0 eofFormatByte) as [->|N0];
    [rewrite byte_eqb_refl | rewrite (byte_eqb_neq _ _ N0); cbn; eauto].
  cbn [negb].
  destruct code as [|c1 [|c2 code]]; [cbn; eauto..|].
  destruct (Byte.byte_eq_dec c1 xca) as [->|N1];
    [rewrite byte_eqb_refl | rewrite (byte_eqb_neq _ _ N1); cbn; eauto].
  destruct (Byte.byte_eq_dec c2 xfe) as [->|N2];
    [rewrite byte_eqb_refl | rewrite (byte_eqb_neq _ _ N2); cbn; eauto].
  cbn [andb negb].
  destruct code as [|c3 code]; [cbn; eauto|].
  destruct (Byte.byte_eq_dec c3 eof1Version) as [->|N3].
  - exfalso. apply Hn. apply reachesScan_prefix. now exists code.
  - cbn [length eofMagic Nat.add Nat.leb index nth_error bind].
    rewrite (byte_eqb_neq _ _ N3). cbn. eauto.
Qed.

Lemma reachesScan_dec code : reachesScan code \/ ~ reachesScan code.
Proof.
  unfold reachesScan. rewrite hasFormatByte_eq, hasEOFMagic_eq.
  destruct code as [|c0 [|c1 [|c2 [|c3 rest]]]];
    try (right; intros (Hf & Hm & Hv); discriminate).
  cbn [length eofMagic Nat.add nth_error].
  destruct (Byte.eqb c0 eofFormatByte);
    [|right; intros (Hf & _); discriminate].
  destruct (Byte.eqb c1 xca && Byte.eqb c2 xfe);
    [|right; intros (_ & Hm & _); discriminate].
  destruct (Byte.byte_eq_dec c3 eof1Version) as [->|N3].
  - left. repeat split.
  - right. intros (_ & _ & Hv). congruence.
Qed.

Lemma scanned_total code :
  reachesScan code -> exists e, scanned code = Val e.
Proof.
  intros H. apply reachesScan_prefix in H as (rest & ->).
  apply sectionLoop_total. cbn. lia.
Qed.

(** The parser returns on every input: it neither panics nor runs out of
    fuel. *)
Lemma readEOF1Header_total code : exists r, readEOF1Header code = Val r.
Proof.
  destruct (reachesScan_dec code) as [H|H].
  - rewrite readEOF1Header_scan by assumption.
    destruct (scanned_total code H) as (e & ->). cbn [bind].
    destruct e; eauto.
  - destruct (readEOF1Header_no_scan code H) as (e & ->). eauto.
Qed.

(** ** Accepted buffers *)

Lemma postScan_ok len i hd h :
  postScan len i hd = (h, None) ->
  hd = h /\ codeSize h <> 0%Z /\
  (Z.of_nat i + codeSize h + dataSize h = Z.of_nat len)%Z.
Proof.
  unfold postScan. destruct (codeSize hd =? 0)%Z eqn:Ec; [discriminate|].
  destruct (Z.eqb_spec (Z.of_nat i + codeSize hd + dataSize hd) (Z.of_nat len));
    cbn [negb]; [|discriminate].
  intros H; inversion H; subst. apply Z.eqb_neq in Ec. auto.
Qed.

Lemma postScan_error len i hd h e :
  postScan len i hd = (h, Some e) -> h = emptyHeader.
Proof.
  unfold postScan. destruct (codeSize hd =? 0)%Z; [congruence|].
  destruct (negb _); congruence.
Qed.

(** The layouts the parser accepts: a code section declaration at offset 4,
    then either the terminator at offset 7, or a data section declaration
    at offset 7 and the terminator at offset 10. *)
Lemma scan_accept code how i hd h :
  reachesScan code ->
  scanned code = Val (Exited how i hd) ->
  postScan (length code) i hd = (h, None) ->
  hd = h /\ how = ByBreak /\
  nth_error code 4 = Some x01 /\
  codeSize h = be16 code 5 /\ codeSize h <> 0%Z /\
  (Z.of_nat i + codeSize h + dataSize h = Z.of_nat (length code))%Z /\
  ((nth_error code 7 = Some x00 /\ i = 8 /\ dataSize h = 0%Z) \/
   (nth_error code 7 = Some x02 /\ nth_error code 10 = Some x00 /\ i = 11 /\
    dataSize h = be16 code 8 /\ dataSize h <> 0%Z)).
Proof.
  intros Hp Hs Hpost.
  apply postScan_ok in Hpost as (-> & Hcs & Htot).
  pose proof (be16_range code 5) as R5. pose proof (be16_range code 8) as R8.
  assert (Hfuel : exists f, length code = S (S (S f))).
  { apply reachesScan_prefix in Hp as (rest & ->). cbn. eauto. }
  destruct Hfuel as (f & Hf).
  unfold scanned, sectionsOffset in Hs. cbn [eofMagic length Nat.add] in Hs.
  rewrite Hf in Hs at 1.
  (* first turn, at offset 4 *)
  destruct (Nat.lt_ge_cases 4 (length code)) as [H4|H4].
  2:{ rewrite sectionLoop_stop in Hs by assumption.
      inversion Hs; subst. now hdr_simpl. }
  rewrite sectionLoop_step in Hs by assumption.
  destruct (index_lt code 4 H4) as (k & Hk & _). kind_cases k.
  - rewrite (sectionBody_terminator _ _ _ Hk) in Hs. cbn [bind] in Hs.
    inversion Hs; subst. now hdr_simpl.
  - rewrite (sectionBody_code _ _ _ Hk) in Hs. unfold codeSectionRule in Hs.
    hdr_simpl. cbn [Z.eqb negb Nat.add] in Hs.
    destruct (Nat.ltb_spec (length code) 7) as [|L7]; [discriminate|].
    destruct (Z.eqb_spec (be16 code 5) 0) as [|V5]; [discriminate|].
    cbn [bind] in Hs.
    (* second turn, at offset 7 *)
    destruct (Nat.lt_ge_cases 7 (length code)) as [H7|H7].
    2:{ rewrite sectionLoop_stop in Hs by assumption.
        inversion Hs; subst. hdr_simpl. lia. }
    rewrite sectionLoop_step in Hs by assumption.
    destruct (index_lt code 7 H7) as (k & Hk7 & _). kind_cases k.
    + rewrite (sectionBody_terminator _ _ _ Hk7) in Hs. cbn [bind] in Hs.
      inversion Hs; subst. hdr_simpl. repeat split; auto.
    + rewrite (sectionBody_code _ _ _ Hk7) in Hs. unfold codeSectionRule in Hs.
      hdr_simpl.
      destruct (Z.eqb_spec (be16 code 5) 0); [contradiction|].
      discriminate.
    + rewrite (sectionBody_data _ _ _ Hk7) in Hs. unfold dataSectionRule in Hs.
      hdr_simpl. cbn [Z.eqb negb Nat.add] in Hs.
      destruct (Z.eqb_spec (be16 code 5) 0); [contradiction|].
      destruct (Nat.ltb_spec (length code - 8) 2) as [|L10]; [discriminate|].
      change (256 * byteZ code 8 + byteZ code 9)%Z with (be16 code 8) in Hs.
      destruct (Z.eqb_spec (be16 code 8) 0) as [|V8]; [discriminate|].
      cbn [bind] in Hs. destruct f as [|f]; [lia|].
      (* third turn, at offset 10 *)
      destruct (Nat.lt_ge_cases 10 (length code)) as [H10|H10].
      2:{ rewrite sectionLoop_stop in Hs by assumption.
          inversion Hs; subst. hdr_simpl. lia. }
      rewrite sectionLoop_step in Hs by assumption.
      destruct (index_lt code 10 H10) as (k & Hk10 & _). kind_cases k.
      * rewrite (sectionBody_terminator _ _ _ Hk10) in Hs. cbn [bind] in Hs.
        inversion Hs; subst. hdr_simpl. repeat split; auto.
        right. repeat split; auto.
      * rewrite (sectionBody_code _ _ _ Hk10) in Hs.
        unfold codeSectionRule in Hs. hdr_simpl.
        destruct (Z.eqb_spec (be16 code 5) 0); [contradiction|].
        discriminate.
      * rewrite (sectionBody_data _ _ _ Hk10) in Hs.
        unfold dataSectionRule in Hs. hdr_simpl.
        destruct (Z.eqb_spec (be16 code 5) 0); [contradiction|].
        destruct (Z.eqb_spec (be16 code 8) 0); [contradiction|].
        discriminate.
      * rewrite (sectionBody_unknown _ _ _ _ Hk10) in Hs by assumption.
        discriminate.
    + rewrite (sectionBody_unknown _ _ _ _ Hk7) in Hs by assumption.
      discriminate.
  - rewrite (sectionBody_data _ _ _ Hk) in Hs. discriminate.
  - rewrite (sectionBody_unknown _ _ _ _ Hk) in Hs by assumption.
    discriminate.
Qed.

Lemma sectionBody_header_range code i header c :
  sectionBody code (length code) i header = Val c ->
  uint16_header header ->
  match c with
  | Continue _ h' | Break _ h' => uint16_header h'
  | Return _ => True
  end.
Proof.
  intros H Hr. destruct (nth_error code i) as [k|] eqn:Hk.
  2:{ unfold sectionBody, index in H. rewrite Hk in H. discriminate. }
  destruct Hr as [Hc Hd].
  pose proof (be16_range code (i + 1)) as Hb.
  kind_cases k.
  - rewrite (sectionBody_terminator _ _ _ Hk) in H. inversion H. now split.
  - rewrite (sectionBody_code _ _ _ Hk) in H. inversion H.
    unfold codeSectionRule.
    destruct (negb _); [exact I|]. destruct (_ <? _); [exact I|].
    destruct (_ =? _)%Z; [exact I|]. now split.
  - rewrite (sectionBody_data _ _ _ Hk) in H. inversion H.
    unfold dataSectionRule. cbv zeta. fold (be16 code (i + 1)).
    destruct (_ =? _)%Z; [exact I|]. destruct (negb _); [exact I|].
    destruct (_ <? _); [exact I|].
    destruct (_ =? _)%Z; [exact I|]. now split.
  - rewrite (sectionBody_unknown _ _ _ _ Hk) in H by assumption.
    inversion H. exact I.
Qed.

Lemma sectionLoop_header_range code : forall fuel i header how j header',
  uint16_header header ->
  sectionLoop fuel code (length code) i header = Val (Exited how j header') ->
  uint16_header header'.
Proof.
  induction fuel as [|fuel IH]; intros i header how j header' Hr H;
    [discriminate|].
  destruct (Nat.lt_ge_cases i (length code)) as [Hi|Hi].
  - rewrite sectionLoop_step in H by assumption.
    destruct (sectionBody code (length code) i header) as [c| |] eqn:E;
      try discriminate.
    pose proof (sectionBody_header_range _ _ _ _ E Hr) as Hc.
    cbn [bind] in H. destruct c as [i' h'|i' h'|r].
    + eapply IH; eassumption.
    + inversion H; subst. assumption.
    + discriminate.
  - rewrite sectionLoop_stop in H by assumption. inversion H; subst.
    assumption.
Qed.

Lemma emptyHeader_range : uint16_header emptyHeader.
Proof. split; cbn; lia. Qed.

Lemma reachesScan_length code : reachesScan code -> 4 <= length code.
Proof.
  intros H. apply reachesScan_prefix in H as (rest & ->). cbn. lia.
Qed.

(** An accepted buffer went through the section loop, left it by the
    terminator, and has one of the two accepted layouts. *)
Lemma readEOF1Header_accept code h :
  readEOF1Header code = Val (h, None) ->
  reachesScan code /\
  exists i,
    scanned code = Val (Exited ByBreak i h) /\
    nth_error code 4 = Some x01 /\
    codeSize h = be16 code 5 /\ codeSize h <> 0%Z /\
    (Z.of_nat i + codeSize h + dataSize h = Z.of_nat (length code))%Z /\
    ((nth_error code 7 = Some x00 /\ i = 8 /\ dataSize h = 0%Z) \/
     (nth_error code 7 = Some x02 /\ nth_error code 10 = Some x00 /\ i = 11 /\
      dataSize h = be16 code 8 /\ dataSize h <> 0%Z)).
Proof.
  intros H. destruct (reachesScan_dec code) as [Hp|Hp].
  2:{ destruct (readEOF1Header_no_scan code Hp) as (e & He). congruence. }
  split; [assumption|].
  rewrite readEOF1Header_scan in H by assumption.
  destruct (scanned_total code Hp) as (e & He). rewrite He in H.
  cbn [bind] in H. destruct e as [how i hd|r].
  - injection H as H.
    destruct (scan_accept code how i hd h Hp He H) as (-> & -> & Hrest).
    exists i. split; [assumption|exact Hrest].
  - injection H as ->. apply sectionLoop_returned in He as (e & He).
    discriminate.
Qed.

(** An error never comes with anything but the empty header. *)
Lemma readEOF1Header_error code h e :
  readEOF1Header code = Val (h, Some e) -> h = emptyHeader.
Proof.
  intros H. destruct (reachesScan_dec code) as [Hp|Hp].
  2:{ destruct (readEOF1Header_no_scan code Hp) as (e' & He). congruence. }
  rewrite readEOF1Header_scan in H by assumption.
  destruct (scanned_total code Hp) as (x & Hx). rewrite Hx in H.
  cbn [bind] in H. destruct x as [how i hd|r].
  - injection H as H. now apply postScan_error in H.
  - injection H as ->. apply sectionLoop_returned in Hx as (e' & He').
    congruence.
Qed.

(** ** The properties of the specification *)

(** C1, as the code has it.  A header is returned only when the cursor the
    section loop was left at stands just past a terminator byte and that
    cursor plus the returned [codeSize] plus the returned [dataSize] is
    exactly the length of the buffer.  Once a code section has been
    recorded, any other total fails with [ErrEOF1InvalidTotalSize]; with no
    code section recorded the parser fails with [ErrEOF1CodeSectionMissing]
    before it compares the total. *)
Theorem total_size_check (code : list byte) :
  (forall h,
     readEOF1Header code = Val (h, None) ->
     exists i,
       scanned code = Val (Exited ByBreak i h) /\
       0 < i /\ nth_error code (i - 1) = Some x00 /\
       (Z.of_nat i + codeSize h + dataSize h = Z.of_nat (length code))%Z)
  /\
  (forall how i hd,
     reachesScan code ->
     scanned code = Val (Exited how i hd) ->
     codeSize hd <> 0%Z ->
     (Z.of_nat i + codeSize hd + dataSize hd <> Z.of_nat (length code))%Z ->
     readEOF1Header code = Val (emptyHeader, Some ErrEOF1InvalidTotalSize))
  /\
  (forall how i hd,
     reachesScan code ->
     scanned code = Val (Exited how i hd) ->
     codeSize hd = 0%Z ->
     readEOF1Header code = Val (emptyHeader, Some ErrEOF1CodeSectionMissing)).
Proof.
  split; [|split].
  - intros h H.
    apply readEOF1Header_accept in H as (Hp & i & Hs & _ & _ & _ & Htot & _).
    exists i. split; [assumption|].
    pose proof (sectionLoop_exited code _ _ _ _ _ _
                  (reachesScan_length code Hp) Hs) as ([Hi _] & Hz).
    auto.
  - intros how i hd Hp Hs Hcs Hne.
    rewrite readEOF1Header_scan by assumption. rewrite Hs. cbn [bind].
    unfold postScan.
    destruct (Z.eqb_spec (codeSize hd) 0); [contradiction|].
    destruct (Z.eqb_spec (Z.of_nat i + codeSize hd + dataSize hd)
                (Z.of_nat (length code))); [contradiction|reflexivity].
  - intros how i hd Hp Hs Hcs.
    rewrite readEOF1Header_scan by assumption. rewrite Hs. cbn [bind].
    unfold postScan. now rewrite Hcs.
Qed.

Lemma total_size_check_witness :
  (exists i,
     scanned minimalContainer = Val (Exited ByBreak i (mkHeader 1 0)) /\
     0 < i /\ nth_error minimalContainer (i - 1) = Some x00 /\
     (Z.of_nat i + 1 + 0 = Z.of_nat (length minimalContainer))%Z)
  /\
  (reachesScan trailingBytesContainer /\
   scanned trailingBytesContainer = Val (Exited ByBreak 8 (mkHeader 2 0)) /\
   readEOF1Header trailingBytesContainer
   = Val (emptyHeader, Some ErrEOF1InvalidTotalSize))
  /\
  (reachesScan bareTerminatorContainer /\
   scanned bareTerminatorContainer = Val (Exited ByBreak 5 emptyHeader) /\
   readEOF1Header bareTerminatorContainer
   = Val (emptyHeader, Some ErrEOF1CodeSectionMissing)).
Proof.
  split; [|split].
  - exact (proj1 (total_size_check minimalContainer) (mkHeader 1 0) eq_refl).
  - assert (Hp : reachesScan trailingBytesContainer) by (repeat split).
    split; [exact Hp|]. split; [reflexivity|].
    apply (proj1 (proj2 (total_size_check trailingBytesContainer))
             ByBreak 8 (mkHeader 2 0) Hp eq_refl).
    + cbn. discriminate.
    + cbn. discriminate.
  - assert (Hp : reachesScan bareTerminatorContainer) by (repeat split).
    split; [exact Hp|]. split; [reflexivity|].
    exact (proj2 (proj2 (total_size_check bareTerminatorContainer))
             ByBreak 5 emptyHeader Hp eq_refl eq_refl).
Defined.

(** The claim C1 as the specification words it fails on EFCAFE010000: the
    loop is left just past the terminator at cursor 5 with nothing
    recorded, 5 + 0 + 0 is not the length 6, and the parser fails with
    [ErrEOF1CodeSectionMissing], the check that comes first. *)
Lemma total_size_counterexample :
  scanned bareTerminatorContainer = Val (Exited ByBreak 5 emptyHeader) /\
  readEOF1Header bareTerminatorContainer
  = Val (emptyHeader, Some ErrEOF1CodeSectionMissing) /\
  ~ anyMismatchFailsTotalSize bareTerminatorContainer.
Proof.
  split; [reflexivity|]. split; [reflexivity|].
  intros H. specialize (H ByBreak 5 emptyHeader).
  assert (Hp : reachesScan bareTerminatorContainer) by (repeat split).
  specialize (H Hp eq_refl). cbn in H.
  assert (Hne : (5 <> 6)%Z) by discriminate.
  specialize (H Hne). discriminate.
Qed.

(** C2: on every buffer the parser accepts, the trusted reader reads within
    bounds (it yields a value, it does not panic) and returns the header
    the parser returned. *)
Theorem readValidEOF1Header_agrees (code : list byte) (h : eof1Header) :
  readEOF1Header code = Val (h, None) ->
  readValidEOF1Header code = Val h.
Proof.
  intros H.
  apply readEOF1Header_accept in H
    as (_ & i & _ & _ & Hc & Hnz & Htot & Hshape).
  pose proof (be16_range code 5) as R5. pose proof (be16_range code 8) as R8.
  unfold readValidEOF1Header. cbn [eofMagic length Nat.add].
  destruct h as [cs ds]. cbn [codeSize dataSize] in *.
  destruct Hshape as [(H7 & -> & Hd)|(H7 & _ & -> & Hd & Hdnz)].
  - rewrite (read_be16 code 5) by lia. rewrite (index_some _ _ _ H7).
    cbn [bind]. change (Byte.eqb x00 x02) with false. cbv iota.
    unfold set_codeSize, emptyHeader. cbn [dataSize]. congruence.
  - rewrite (read_be16 code 5) by lia. rewrite (index_some _ _ _ H7).
    cbn [bind]. change (Byte.eqb x02 x02) with true. cbv iota.
    rewrite (read_be16 code 8) by lia.
    unfold set_dataSize, set_codeSize, emptyHeader. cbn [codeSize dataSize].
    congruence.
Qed.

Lemma readValidEOF1Header_agrees_witness :
  readEOF1Header codeAndDataContainer = Val (mkHeader 2 1, None) /\
  readValidEOF1Header codeAndDataContainer = Val (mkHeader 2 1).
Proof.
  split; [reflexivity|].
  apply (readValidEOF1Header_agrees codeAndDataContainer (mkHeader 2 1)).
  reflexivity.
Defined.

(** C3: [validateEOF] returns on every buffer, and returns [true] exactly
    when [readEOF1Header] returns a header with no error. *)
Theorem validateEOF_agrees (code : list byte) :
  exists b,
    validateEOF code = Val b /\
    (b = true <-> exists h, readEOF1Header code = Val (h, None)).
Proof.
  unfold validateEOF.
  destruct (readEOF1Header_total code) as ([h [e|]] & Hr); rewrite Hr;
    cbn [bind snd].
  - exists false. split; [reflexivity|]. split; [discriminate|].
    intros (h' & Hh'). congruence.
  - exists true. split; [reflexivity|]. split; [|reflexivity].
    intros _. now exists h.
Qed.

(** C5: when the section loop runs to the end of the buffer without reading
    a terminator, the parser fails: with [ErrEOF1CodeSectionMissing] when no
    code section was recorded, with [ErrEOF1InvalidTotalSize] otherwise. *)
Theorem scan_exhausted_rejected (code : list byte) (i : nat)
    (hd : eof1Header) :
  reachesScan code ->
  scanned code = Val (Exited ByCondition i hd) ->
  readEOF1Header code
  = Val (emptyHeader,
         Some (if (codeSize hd =? 0)%Z then ErrEOF1CodeSectionMissing
               else ErrEOF1InvalidTotalSize)) /\
  (forall h, readEOF1Header code <> Val (h, None)).
Proof.
  intros Hp Hs.
  assert (Hr : readEOF1Header code
               = Val (emptyHeader,
                      Some (if (codeSize hd =? 0)%Z
                            then ErrEOF1CodeSectionMissing
                            else ErrEOF1InvalidTotalSize))).
  { rewrite readEOF1Header_scan by assumption. rewrite Hs. cbn [bind].
    unfold postScan.
    pose proof (sectionLoop_exited code _ _ _ _ _ _
                  (reachesScan_length code Hp) Hs) as Hi.
    cbv iota in Hi.
    pose proof (sectionLoop_header_range code _ _ _ _ _ _
                  emptyHeader_range Hs) as [Rc Rd].
    destruct (Z.eqb_spec (codeSize hd) 0); [reflexivity|].
    destruct (Z.eqb_spec (Z.of_nat i + codeSize hd + dataSize hd)
                (Z.of_nat (length code))); [lia|reflexivity]. }
  split; [exact Hr|]. intros h. rewrite Hr. discriminate.
Qed.

Lemma scan_exhausted_rejected_witness :
  reachesScan unterminatedContainer /\
  scanned unterminatedContainer = Val (Exited ByCondition 7 (mkHeader 2 0)) /\
  readEOF1Header unterminatedContainer
  = Val (emptyHeader, Some ErrEOF1InvalidTotalSize).
Proof.
  assert (Hp : reachesScan unterminatedContainer) by (repeat split).
  split; [exact Hp|]. split; [reflexivity|].
  exact (proj1 (scan_exhausted_rejected unterminatedContainer 7
                  (mkHeader 2 0) Hp eq_refl)).
Defined.

(** C6: on every buffer the parser returns either a header with a recorded
    code section and no error, or an error with the empty header. *)
Theorem readEOF1Header_atomic (code : list byte) :
  (exists h, readEOF1Header code = Val (h, None) /\ codeSize h <> 0%Z)
  \/ (exists e, readEOF1Header code = Val (emptyHeader, Some e)).
Proof.
  destruct (readEOF1Header_total code) as ([h [e|]] & Hr).
  - right. exists e. now rewrite (readEOF1Header_error _ _ _ Hr) in Hr.
  - left. exists h. split; [assumption|].
    now apply readEOF1Header_accept in Hr as (_ & i & _ & _ & _ & Hnz & _).
Qed.

(** C7: [hasFormatByte] holds exactly of the non-empty buffers whose first
    byte is 0xEF, [hasEOFMagic] exactly of the buffers of at least three
    bytes with 0xCA, 0xFE at offsets 1 and 2, and [isEOFCode] exactly when
    both hold; the three return on every buffer. *)
Theorem format_detector (code : list byte) :
  (hasFormatByte code = Val true <->
   length code <> 0 /\ nth_error code 0 = Some xef) /\
  (hasEOFMagic code = Val true <->
   3 <= length code /\
   nth_error code 1 = Some xca /\ nth_error code 2 = Some xfe) /\
  (isEOFCode code = Val true <->
   hasFormatByte code = Val true /\ hasEOFMagic code = Val true) /\
  (exists f m b,
     hasFormatByte code = Val f /\ hasEOFMagic code = Val m /\
     isEOFCode code = Val b).
Proof.
  assert (HF : hasFormatByte code = Val true <->
               length code <> 0 /\ nth_error code 0 = Some xef).
  { rewrite hasFormatByte_eq. destruct code as [|c0 rest].
    - split; [discriminate|]. intros [H _]. now cbn in H.
    - cbn [length nth_error]. split.
      + intros H. injection H as H. apply byte_eqb_eq in H. subst.
        split; [discriminate|reflexivity].
      + intros [_ H]. injection H as ->. reflexivity. }
  assert (HM : hasEOFMagic code = Val true <->
               3 <= length code /\
               nth_error code 1 = Some xca /\ nth_error code 2 = Some xfe).
  { rewrite hasEOFMagic_eq.
    destruct code as [|c0 [|c1 [|c2 rest]]]; cbn [length nth_error];
      try (split; [discriminate|]; intros [H _]; lia).
    split.
    - intros H. injection H as H. apply andb_true_iff in H as [H1 H2].
      apply byte_eqb_eq in H1, H2. subst. repeat split. lia.
    - intros (_ & H1 & H2). injection H1 as ->. injection H2 as ->.
      reflexivity. }
  split; [exact HF|]. split; [exact HM|]. clear HF HM.
  unfold isEOFCode. rewrite hasFormatByte_eq. cbn [bind].
  destruct code as [|c0 rest].
  - split.
    + split; [discriminate|]. intros [H _]. discriminate.
    + exists false, false, false. now rewrite hasEOFMagic_eq.
  - destruct (Byte.eqb c0 eofFormatByte).
    + split.
      * split; [intros H; now split|]. now intros [_ H].
      * rewrite hasEOFMagic_eq. do 3 eexists. repeat split.
    + split.
      * split; [discriminate|]. intros [H _]. discriminate.
      * rewrite hasEOFMagic_eq. do 3 eexists. repeat split.
Qed.

(** C8: the empty buffer fails with [ErrEOF1InvalidFormatByte], the buffer
    that holds the single byte 0xEF with [ErrEOF1InvalidMagic]. *)
Theorem boundary_inputs :
  readEOF1Header [] = Val (emptyHeader, Some ErrEOF1InvalidFormatByte) /\
  readEOF1Header [xef] = Val (emptyHeader, Some ErrEOF1InvalidMagic).
Proof. split; reflexivity. Qed.

(** C9: the minimal container EFCAFE010100010000 parses to a header with
    [codeSize = 1] and [dataSize = 0]. *)
Theorem minimal_container_parsed :
  readEOF1Header [xef; xca; xfe; x01; x01; x00; x01; x00; x00]
  = Val ({| codeSize := 1; dataSize := 0 |}, None).
Proof. reflexivity. Qed.

(** C10: every accepted buffer has at least 9 bytes, a Code kind byte at
    offset 4 and a nonzero [codeSize] that is the big-endian word at
    offsets 5-6; its [dataSize] is nonzero exactly when the byte at offset
    7 is the Data kind, and then it is the big-endian word at offsets 8-9
    and the buffer has at least 12 bytes. *)
Theorem accepted_layout (code : list byte) (h : eof1Header) :
  readEOF1Header code = Val (h, None) ->
  9 <= length code /\
  nth_error code 4 = Some x01 /\
  codeSize h <> 0%Z /\
  codeSize h = be16 code 5 /\
  (dataSize h <> 0%Z <-> nth_error code 7 = Some x02) /\
  (nth_error code 7 = Some x02 ->
   dataSize h = be16 code 8 /\ 12 <= length code).
Proof.
  intros H.
  apply readEOF1Header_accept in H
    as (_ & i & _ & H4 & Hc & Hnz & Htot & Hshape).
  pose proof (be16_range code 5) as R5. pose proof (be16_range code 8) as R8.
  destruct Hshape as [(H7 & -> & Hd)|(H7 & _ & -> & Hd & Hdnz)].
  - split; [lia|]. split; [assumption|]. split; [assumption|].
    split; [assumption|]. split.
    + split; [intros Hne; contradiction | intros E; congruence].
    + intros E. congruence.
  - split; [lia|]. split; [assumption|]. split; [assumption|].
    split; [assumption|]. split.
    + split; [intros _; assumption | intros _; assumption].
    + intros _. split; [assumption|lia].
Qed.

Lemma accepted_layout_witness :
  readEOF1Header codeAndDataContainer = Val (mkHeader 2 1, None) /\
  9 <= length codeAndDataContainer /\
  nth_error codeAndDataContainer 4 = Some x01 /\
  codeSize (mkHeader 2 1) <> 0%Z /\
  codeSize (mkHeader 2 1) = be16 codeAndDataContainer 5 /\
  (dataSize (mkHeader 2 1) <> 0%Z <->
   nth_error codeAndDataContainer 7 = Some x02) /\
  (nth_error codeAndDataContainer 7 = Some x02 ->
   dataSize (mkHeader 2 1) = be16 codeAndDataContainer 8 /\
   12 <= length codeAndDataContainer).
Proof.
  split; [reflexivity|].
  apply (accepted_layout codeAndDataContainer (mkHeader 2 1)).
  reflexivity.
Defined.

(** ** The number of turns of the section loop *)

Lemma turnsLeft_pos header : 1 <= turnsLeft header.
Proof.
  unfold turnsLeft.
  destruct (codeSize header =? 0)%Z; destruct (dataSize header =? 0)%Z; lia.
Qed.

(** A turn that goes on has read a size of three bytes in all and has used
    up one of the turns the header allowed. *)
Lemma sectionBody_continue code i header i' header' :
  sectionBody code (length code) i header = Val (Continue i' header') ->
  i' = i + 3 /\ i + 3 <= length code /\ turnsLeft header' < turnsLeft header.
Proof.
  intros H. destruct (nth_error code i) as [k|] eqn:Hk.
  2:{ unfold sectionBody, index in H. rewrite Hk in H. discriminate. }
  kind_cases k.
  - rewrite (sectionBody_terminator _ _ _ Hk) in H. discriminate.
  - rewrite (sectionBody_code _ _ _ Hk) in H. unfold codeSectionRule in H.
    destruct (codeSize header =? 0)%Z eqn:Ec; cbn [negb] in H;
      [|discriminate].
    destruct (Nat.ltb_spec (length code) (i + 3)); [discriminate|].
    destruct (be16 code (i + 1) =? 0)%Z eqn:Ev; [discriminate|].
    injection H as <- <-. split; [reflexivity|]. split; [assumption|].
    unfold turnsLeft, set_codeSize. cbn [codeSize dataSize].
    rewrite Ec, Ev. destruct (dataSize header =? 0)%Z; lia.
  - rewrite (sectionBody_data _ _ _ Hk) in H. unfold dataSectionRule in H.
    cbv zeta in H. fold (be16 code (i + 1)) in H.
    destruct (codeSize header =? 0)%Z eqn:Ec; [discriminate|].
    destruct (dataSize header =? 0)%Z eqn:Ed; cbn [negb] in H;
      [|discriminate].
    destruct (Nat.ltb_spec (length code - (i + 1)) 2); [discriminate|].
    destruct (be16 code (i + 1) =? 0)%Z eqn:Ev; [discriminate|].
    injection H as <- <-. split; [lia|]. split; [lia|].
    unfold turnsLeft. cbn [codeSize dataSize]. rewrite Ec, Ed, Ev. lia.
  - rewrite (sectionBody_unknown _ _ _ _ Hk) in H by assumption.
    discriminate.
Qed.

Section Turns.

Variable code : list byte.

(** With fuel for the turns the header allows, the loop yields a value. *)
Lemma sectionLoop_turns_total : forall fuel i header,
  turnsLeft header <= fuel ->
  exists e, sectionLoop fuel code (length code) i header = Val e.
Proof.
  induction fuel as [|fuel IH]; intros i header Hf.
  - pose proof (turnsLeft_pos header). lia.
  - destruct (Nat.lt_ge_cases i (length code)) as [Hi|Hi].
    + rewrite sectionLoop_step by assumption.
      destruct (sectionBody_cases code i header Hi)
        as [[_ E]|[[e E]|(h' & E & _)]]; rewrite E; cbn [bind]; eauto.
      apply sectionBody_continue in E as (_ & _ & Hlt). apply IH. lia.
    + rewrite sectionLoop_stop by assumption. eauto.
Qed.

(** Beyond the turns the header allows, fuel makes no difference. *)
Lemma sectionLoop_fuel : forall fuel fuel' i header,
  turnsLeft header <= fuel ->
  turnsLeft header <= fuel' ->
  sectionLoop fuel code (length code) i header
  = sectionLoop fuel' code (length code) i header.
Proof.
  induction fuel as [|fuel IH]; intros fuel' i header Hf Hf';
    pose proof (turnsLeft_pos header) as Hpos; [lia|].
  destruct fuel' as [|fuel']; [lia|].
  destruct (Nat.lt_ge_cases i (length code)) as [Hi|Hi].
  - rewrite !sectionLoop_step by assumption.
    destruct (sectionBody code (length code) i header) as [c| |] eqn:E;
      try reflexivity.
    cbn [bind]. destruct c as [i' h'|i' h'|r]; try reflexivity.
    apply sectionBody_continue in E as (_ & _ & Hlt). apply IH; lia.
  - now rewrite !sectionLoop_stop by assumption.
Qed.

End Turns.

Lemma turnsLeft_le_3 header : turnsLeft header <= 3.
Proof.
  unfold turnsLeft.
  destruct (codeSize header =? 0)%Z; destruct (dataSize header =? 0)%Z; lia.
Qed.

(** ** A turn of the loop within [readEOF1Header] *)

(** From any turn the loop comes to, [readEOF1Header] returns what the rest
    of the loop and the checks after it make of the buffer. *)
Lemma readEOF1Header_from code i header :
  scanReaches code i header ->
  forall fuel,
    turnsLeft header <= fuel ->
    readEOF1Header code
    = (e <- sectionLoop fuel code (length code) i header ;;
       Val (afterLoop (length code) e)).
Proof.
  induction 1 as [Hp|i header i' header' Hreach IH Hi Hbody];
    intros fuel Hf.
  - pose proof (reachesScan_length code Hp) as Hlen.
    pose proof (turnsLeft_le_3 emptyHeader) as H3.
    rewrite readEOF1Header_scan by assumption. unfold scanned.
    rewrite (sectionLoop_fuel code (length code) fuel) by lia.
    destruct (sectionLoop fuel code (length code) sectionsOffset emptyHeader)
      as [e| |]; try reflexivity.
    now destruct e.
  - pose proof (turnsLeft_le_3 header) as H3.
    rewrite (IH (S (Nat.max fuel 3))) by lia.
    rewrite sectionLoop_step by assumption. rewrite Hbody. cbn [bind].
    now rewrite (sectionLoop_fuel code (Nat.max fuel 3) fuel) by lia.
Qed.

(** C4: when the section loop of [readEOF1Header] reads the kind byte 2 at
    position [i], the turn is the Data rule of the specification:
    [DataSectionBeforeCodeSection] without a recorded code section, else
    [MultipleDataSections] with a recorded data section, else
    [DataSectionSizeMissing] with fewer than two bytes left, else
    [EmptyDataSection] for a big-endian size of 0, else the size is
    recorded and the cursor moves two bytes on.  [readEOF1Header] returns
    the error of the rule, or goes on scanning from the cursor and the
    header the rule leaves. *)
Theorem data_section_checks (code : list byte) (i : nat)
    (header : eof1Header) (fuel : nat) :
  nth_error code i = Some x02 ->
  (sectionBody code (length code) i header
   = Val (dataSectionRule code i header) /\
   sectionLoop (S fuel) code (length code) i header
   = match dataSectionRule code i header with
     | Continue i' header' => sectionLoop fuel code (length code) i' header'
     | Break i' header' => Val (Exited ByBreak i' header')
     | Return r => Val (Returned r)
     end) /\
  (scanReaches code i header ->
   readEOF1Header code
   = match dataSectionRule code i header with
     | Continue i' header' =>
         e <- sectionLoop 3 code (length code) i' header' ;;
         Val (afterLoop (length code) e)
     | Break i' header' => Val (postScan (length code) i' header')
     | Return r => Val r
     end /\
   forall i' header',
     dataSectionRule code i header = Continue i' header' ->
     scanReaches code i' header').
Proof.
  intros Hk.
  assert (Hi : i < length code).
  { apply nth_error_Some. congruence. }
  assert (Hbody : sectionBody code (length code) i header
                  = Val (dataSectionRule code i header))
    by (now apply sectionBody_data).
  split.
  - split; [exact Hbody|].
    rewrite sectionLoop_step by assumption. now rewrite Hbody.
  - intros Hreach. split.
    + pose proof (turnsLeft_le_3 header) as H3.
      rewrite (readEOF1Header_from code i header Hreach 4) by lia.
      rewrite sectionLoop_step by assumption. rewrite Hbody. cbn [bind].
      now destruct (dataSectionRule code i header).
    + intros i' header' Hc.
      apply scanReaches_turn with i header; [assumption|assumption|].
      now rewrite Hbody, Hc.
Qed.

Lemma data_section_checks_witness :
  (nth_error codeAndDataContainer 7 = Some x02 /\
   scanReaches codeAndDataContainer 7 (mkHeader 2 0) /\
   dataSectionRule codeAndDataContainer 7 (mkHeader 2 0)
   = Continue 10 (mkHeader 2 1) /\
   readEOF1Header codeAndDataContainer
   = (e <- sectionLoop 3 codeAndDataContainer (length codeAndDataContainer)
             10 (mkHeader 2 1) ;;
      Val (afterLoop (length codeAndDataContainer) e)) /\
   scanReaches codeAndDataContainer 10 (mkHeader 2 1))
  /\
  (nth_error twoDataContainer 10 = Some x02 /\
   scanReaches twoDataContainer 10 (mkHeader 2 4) /\
   readEOF1Header twoDataContainer
   = Val (emptyHeader, Some ErrEOF1MultipleDataSections)).
Proof.
  assert (R7 : scanReaches codeAndDataContainer 7 (mkHeader 2 0)).
  { apply scanReaches_turn with 4 emptyHeader;
      [apply scanReaches_start; repeat split | cbn; lia | reflexivity]. }
  assert (T7 : scanReaches twoDataContainer 7 (mkHeader 2 0)).
  { apply scanReaches_turn with 4 emptyHeader;
      [apply scanReaches_start; repeat split | cbn; lia | reflexivity]. }
  assert (T10 : scanReaches twoDataContainer 10 (mkHeader 2 4)).
  { apply scanReaches_turn with 7 (mkHeader 2 0);
      [exact T7 | cbn; lia | reflexivity]. }
  split.
  - destruct (data_section_checks codeAndDataContainer 7 (mkHeader 2 0) 0
                eq_refl) as [_ Hrun].
    destruct (Hrun R7) as [Hret Hnext].
    split; [reflexivity|]. split; [exact R7|]. split; [reflexivity|].
    split; [exact Hret|]. apply Hnext. reflexivity.
  - destruct (data_section_checks twoDataContainer 10 (mkHeader 2 4) 0
                eq_refl) as [_ Hrun].
    destruct (Hrun T10) as [Hret _].
    split; [reflexivity|]. split; [exact T10|]. exact Hret.
Defined.

(** X1: whatever the buffer, the cursor and the header it starts from, the
    section loop leaves after at most three turns: with any fuel of three
    or more it yields the value it yields with three. *)
Theorem sectionLoop_three_turns (code : list byte) (i : nat)
    (header : eof1Header) (fuel : nat) :
  3 <= fuel ->
  exists e,
    sectionLoop 3 code (length code) i header = Val e /\
    sectionLoop fuel code (length code) i header = Val e.
Proof.
  intros Hf. pose proof (turnsLeft_le_3 header) as H3.
  destruct (sectionLoop_turns_total code 3 i header H3) as (e & He).
  exists e. split; [assumption|].
  rewrite (sectionLoop_fuel code fuel 3) by lia. assumption.
Qed.

Lemma sectionLoop_three_turns_witness :
  3 <= length codeAndDataContainer /\
  exists e,
    sectionLoop 3 codeAndDataContainer (length codeAndDataContainer)
      sectionsOffset emptyHeader = Val e /\
    scanned codeAndDataContainer = Val e.
Proof.
  assert (H : 3 <= length codeAndDataContainer) by (cbn; lia).
  split; [exact H|].
  exact (sectionLoop_three_turns codeAndDataContainer sectionsOffset
           emptyHeader (length codeAndDataContainer) H).
Defined.

(** ** The bytes the parser looks at *)

Lemma firstn_nth_error (n : nat) : forall (l l' : list byte) j,
  firstn n l = firstn n l' -> j < n -> nth_error l j = nth_error l' j.
Proof.
  induction n as [|n IH]; intros l l' j H Hj; [lia|].
  destruct l as [|a l], l' as [|a' l']; cbn [firstn] in H;
    try discriminate; [reflexivity|].
  injection H as -> H. destruct j as [|j]; [reflexivity|].
  cbn [nth_error]. apply IH; [assumption|lia].
Qed.

Lemma be16_agree code code' j :
  nth_error code j = nth_error code' j ->
  nth_error code (j + 1) = nth_error code' (j + 1) ->
  be16 code j = be16 code' j.
Proof. intros H0 H1. unfold be16, byteZ. now rewrite H0, H1. Qed.

(** A turn of the loop depends on the length of the buffer, on the kind
    byte, and on the size that follows it only while a section can still be
    recorded. *)
Lemma sectionBody_agree code code' i header :
  length code = length code' ->
  nth_error code i = nth_error code' i ->
  (2 <= turnsLeft header -> be16 code (i + 1) = be16 code' (i + 1)) ->
  sectionBody code (length code) i header
  = sectionBody code' (length code') i header.
Proof.
  intros Hlen Hk Hsz. destruct (nth_error code i) as [k|] eqn:Ek.
  2:{ unfold sectionBody, index. now rewrite Ek, <- Hk. }
  symmetry in Hk. unfold turnsLeft in Hsz. kind_cases k.
  - now rewrite (sectionBody_terminator _ _ _ Ek),
      (sectionBody_terminator _ _ _ Hk).
  - rewrite (sectionBody_code _ _ _ Ek), (sectionBody_code _ _ _ Hk).
    unfold codeSectionRule. rewrite <- Hlen.
    destruct (codeSize header =? 0)%Z; cbn [negb]; [|reflexivity].
    now rewrite Hsz by lia.
  - rewrite (sectionBody_data _ _ _ Ek), (sectionBody_data _ _ _ Hk).
    unfold dataSectionRule. cbv zeta. rewrite <- Hlen.
    fold (be16 code (i + 1)). fold (be16 code' (i + 1)).
    destruct (codeSize header =? 0)%Z; [reflexivity|].
    destruct (dataSize header =? 0)%Z; cbn [negb]; [|reflexivity].
    now rewrite Hsz by lia.
  - now rewrite (sectionBody_unknown _ _ _ _ Ek),
      (sectionBody_unknown _ _ _ _ Hk) by assumption.
Qed.

(** The loop reads no byte at or beyond the position
    [i + 3 * turnsLeft header - 2]. *)
Lemma sectionLoop_agree code code' n :
  length code = length code' ->
  (forall j, j < n -> nth_error code j = nth_error code' j) ->
  forall fuel i header,
    i + 3 * turnsLeft header <= n + 2 ->
    sectionLoop fuel code (length code) i header
    = sectionLoop fuel code' (length code') i header.
Proof.
  intros Hlen Hn. induction fuel as [|fuel IH]; intros i header Hr;
    [reflexivity|].
  pose proof (turnsLeft_pos header) as Hpos.
  destruct (Nat.lt_ge_cases i (length code)) as [Hi|Hi].
  - rewrite (sectionLoop_step code) by assumption.
    rewrite (sectionLoop_step code') by lia.
    rewrite <- (sectionBody_agree code code' i header Hlen).
    + destruct (sectionBody code (length code) i header) as [c| |] eqn:E;
        try reflexivity.
      cbn [bind]. destruct c as [i' h'|i' h'|r]; try reflexivity.
      apply sectionBody_continue in E as (-> & _ & Hlt). apply IH. lia.
    + apply Hn. lia.
    + intros H2. apply be16_agree; apply Hn; lia.
  - rewrite (sectionLoop_stop code) by assumption.
    now rewrite (sectionLoop_stop code') by lia.
Qed.

(** A buffer of four bytes or more whose prefix is not the required one is
    judged on its first four bytes. *)
Lemma readEOF1Header_bad_prefix c0 c1 c2 c3 rest :
  ~ reachesScan (c0 :: c1 :: c2 :: c3 :: rest) ->
  readEOF1Header (c0 :: c1 :: c2 :: c3 :: rest)
  = readEOF1Header [c0; c1; c2; c3].
Proof.
  intros Hn. unfold readEOF1Header.
  rewrite !hasFormatByte_eq, !hasEOFMagic_eq. cbn [bind].
  destruct (Byte.byte_eq_dec c0 eofFormatByte) as [->|N0];
    [rewrite byte_eqb_refl | now rewrite (byte_eqb_neq _ _ N0)].
  cbn [negb].
  destruct (Byte.byte_eq_dec c1 xca) as [->|N1];
    [rewrite byte_eqb_refl | now rewrite (byte_eqb_neq _ _ N1)].
  destruct (Byte.byte_eq_dec c2 xfe) as [->|N2];
    [rewrite byte_eqb_refl | now rewrite (byte_eqb_neq _ _ N2)].
  cbn [andb negb].
  destruct (Byte.byte_eq_dec c3 eof1Version) as [->|N3].
  - exfalso. apply Hn. apply reachesScan_prefix. now exists rest.
  - cbn [length eofMagic Nat.add Nat.leb index nth_error bind].
    now rewrite (byte_eqb_neq _ _ N3).
Qed.

(** X2: the parser looks at the length of the buffer and at its first
    eleven bytes only: two buffers of one length that agree on their first
    eleven bytes get the same result, whatever the bytes after them. *)
Theorem readEOF1Header_payload_blind (code code' : list byte) :
  length code = length code' ->
  firstn 11 code = firstn 11 code' ->
  readEOF1Header code = readEOF1Header code'.
Proof.
  intros Hlen Hfst.
  assert (Hn : forall j, j < 11 -> nth_error code j = nth_error code' j).
  { intros j Hj. now apply firstn_nth_error with 11. }
  destruct code as [|c0 [|c1 [|c2 [|c3 rest]]]];
    destruct code' as [|c0' [|c1' [|c2' [|c3' rest']]]];
    try discriminate; try (injection Hfst as -> -> ->; reflexivity);
    try (injection Hfst as -> ->; reflexivity);
    try (injection Hfst as ->; reflexivity); try reflexivity.
  cbn [firstn] in Hfst. injection Hfst as -> -> -> -> Hrest.
  destruct (reachesScan_dec (c0' :: c1' :: c2' :: c3' :: rest)) as [Hp|Hp].
  - assert (Hp' : reachesScan (c0' :: c1' :: c2' :: c3' :: rest')).
    { apply reachesScan_prefix in Hp as (r & Hr). injection Hr as -> -> -> ->.
      apply reachesScan_prefix. now exists rest'. }
    rewrite !readEOF1Header_scan by assumption. unfold scanned.
    rewrite (sectionLoop_agree _ (c0' :: c1' :: c2' :: c3' :: rest') 11 Hlen Hn).
    + now rewrite <- Hlen.
    + pose proof (turnsLeft_le_3 emptyHeader). unfold sectionsOffset.
      cbn [eofMagic length Nat.add]. lia.
  - assert (Hp' : ~ reachesScan (c0' :: c1' :: c2' :: c3' :: rest')).
    { intros H. apply Hp. apply reachesScan_prefix in H as (r & Hr).
      injection Hr as -> -> -> ->. apply reachesScan_prefix. now exists rest. }
    rewrite (readEOF1Header_bad_prefix _ _ _ _ rest Hp).
    now rewrite (readEOF1Header_bad_prefix _ _ _ _ rest' Hp').
Qed.

Lemma readEOF1Header_payload_blind_witness :
  readEOF1Header codeAndDataContainer
  = readEOF1Header
      [xef; xca; xfe; x01; x01; x00; x02; x02; x00; x01; x00; x00; x00; x00].
Proof.
  apply (readEOF1Header_payload_blind codeAndDataContainer
           [xef; xca; xfe; x01; x01; x00; x02; x02; x00; x01; x00;
            x00; x00; x00]); reflexivity.
Defined.

(** ** The two accepted layouts *)

Lemma scanned_three code :
  3 <= length code ->
  scanned code
  = sectionLoop 3 code (length code) sectionsOffset emptyHeader.
Proof.
  intros H. unfold scanned.
  apply sectionLoop_fuel; pose proof (turnsLeft_le_3 emptyHeader); lia.
Qed.

(** A code section declaration followed by the terminator: the verdict
    rests on the number of bytes that follow. *)
Lemma verdict_code_only c1 c0 payload :
  (256 * u16_of_byte c1 + u16_of_byte c0 <> 0)%Z ->
  readEOF1Header
    (xef :: xca :: xfe :: x01 :: x01 :: c1 :: c0 :: x00 :: payload)
  = Val (if (256 * u16_of_byte c1 + u16_of_byte c0
             =? Z.of_nat (length payload))%Z
         then (mkHeader (256 * u16_of_byte c1 + u16_of_byte c0) 0, None)
         else (emptyHeader, Some ErrEOF1InvalidTotalSize)).
Proof.
  intros Hv.
  remember (xef :: xca :: xfe :: x01 :: x01 :: c1 :: c0 :: x00 :: payload)
    as code eqn:Hcode.
  assert (Hlen : length code = 8 + length payload) by (now subst).
  assert (H4 : nth_error code 4 = Some x01) by (now subst).
  assert (H7 : nth_error code 7 = Some x00) by (now subst).
  assert (H5 : be16 code 5 = (256 * u16_of_byte c1 + u16_of_byte c0)%Z)
    by (now subst).
  assert (Hp : reachesScan code).
  { apply reachesScan_prefix. subst. eauto. }
  rewrite readEOF1Header_scan by assumption.
  rewrite scanned_three by lia. unfold sectionsOffset.
  cbn [eofMagic length Nat.add].
  rewrite sectionLoop_step by lia. rewrite (sectionBody_code _ _ _ H4).
  unfold codeSectionRule. hdr_simpl. cbn [Z.eqb negb Nat.add bind].
  destruct (Nat.ltb_spec (length code) 7); [lia|]. rewrite H5.
  destruct (Z.eqb_spec (256 * u16_of_byte c1 + u16_of_byte c0) 0);
    [contradiction|].
  rewrite sectionLoop_step by lia. rewrite (sectionBody_terminator _ _ _ H7).
  cbn [bind Nat.add]. unfold postScan. cbn [codeSize dataSize].
  destruct (Z.eqb_spec (256 * u16_of_byte c1 + u16_of_byte c0) 0);
    [contradiction|].
  rewrite Hlen.
  destruct (Z.eqb_spec (256 * u16_of_byte c1 + u16_of_byte c0)
              (Z.of_nat (length payload)));
    destruct (Z.eqb_spec
                (Z.of_nat 8 + (256 * u16_of_byte c1 + u16_of_byte c0) + 0)
                (Z.of_nat (8 + length payload)));
    try lia; reflexivity.
Qed.

(** A code and a data section declaration followed by the terminator. *)
Lemma verdict_code_data c1 c0 d1 d0 payload :
  (256 * u16_of_byte c1 + u16_of_byte c0 <> 0)%Z ->
  (256 * u16_of_byte d1 + u16_of_byte d0 <> 0)%Z ->
  readEOF1Header
    (xef :: xca :: xfe :: x01 :: x01 :: c1 :: c0 :: x02 :: d1 :: d0 :: x00
     :: payload)
  = Val (if (256 * u16_of_byte c1 + u16_of_byte c0
             + (256 * u16_of_byte d1 + u16_of_byte d0)
             =? Z.of_nat (length payload))%Z
         then (mkHeader (256 * u16_of_byte c1 + u16_of_byte c0)
                 (256 * u16_of_byte d1 + u16_of_byte d0), None)
         else (emptyHeader, Some ErrEOF1InvalidTotalSize)).
Proof.
  intros Hv Hw.
  remember (xef :: xca :: xfe :: x01 :: x01 :: c1 :: c0 :: x02 :: d1 :: d0
            :: x00 :: payload) as code eqn:Hcode.
  assert (Hlen : length code = 11 + length payload) by (now subst).
  assert (H4 : nth_error code 4 = Some x01) by (now subst).
  assert (H7 : nth_error code 7 = Some x02) by (now subst).
  assert (H10 : nth_error code 10 = Some x00) by (now subst).
  assert (H5 : be16 code 5 = (256 * u16_of_byte c1 + u16_of_byte c0)%Z)
    by (now subst).
  assert (H8 : be16 code 8 = (256 * u16_of_byte d1 + u16_of_byte d0)%Z)
    by (now subst).
  assert (Hp : reachesScan code).
  { apply reachesScan_prefix. subst. eauto. }
  set (v := (256 * u16_of_byte c1 + u16_of_byte c0)%Z) in *.
  set (w := (256 * u16_of_byte d1 + u16_of_byte d0)%Z) in *.
  rewrite readEOF1Header_scan by assumption.
  rewrite scanned_three by lia. unfold sectionsOffset.
  cbn [eofMagic length Nat.add].
  rewrite sectionLoop_step by lia. rewrite (sectionBody_code _ _ _ H4).
  unfold codeSectionRule. hdr_simpl. cbn [Z.eqb negb Nat.add bind].
  destruct (Nat.ltb_spec (length code) 7); [lia|]. rewrite H5.
  destruct (Z.eqb_spec v 0); [contradiction|].
  rewrite sectionLoop_step by lia. rewrite (sectionBody_data _ _ _ H7).
  unfold dataSectionRule. cbn [codeSize dataSize Z.eqb negb Nat.add bind].
  change (256 * byteZ code 8 + byteZ code 9)%Z with (be16 code 8).
  rewrite H8.
  destruct (Z.eqb_spec v 0); [contradiction|].
  destruct (Nat.ltb_spec (length code - 8) 2); [lia|].
  destruct (Z.eqb_spec w 0); [contradiction|].
  rewrite sectionLoop_step by lia. rewrite (sectionBody_terminator _ _ _ H10).
  cbn [bind Nat.add]. unfold postScan. cbn [codeSize dataSize].
  destruct (Z.eqb_spec v 0); [contradiction|].
  rewrite Hlen.
  destruct (Z.eqb_spec (v + w) (Z.of_nat (length payload)));
    destruct (Z.eqb_spec (Z.of_nat 11 + v + w)
                (Z.of_nat (11 + length payload)));
    try lia; reflexivity.
Qed.

(** An accepted buffer, byte by byte. *)
Lemma accepted_shape code h :
  readEOF1Header code = Val (h, None) ->
  (exists c1 c0 payload,
     code = xef :: xca :: xfe :: x01 :: x01 :: c1 :: c0 :: x00 :: payload /\
     h = mkHeader (256 * u16_of_byte c1 + u16_of_byte c0) 0 /\
     codeSize h <> 0%Z /\
     Z.of_nat (length payload) = codeSize h)
  \/
  (exists c1 c0 d1 d0 payload,
     code = xef :: xca :: xfe :: x01 :: x01 :: c1 :: c0 :: x02 :: d1 :: d0
            :: x00 :: payload /\
     h = mkHeader (256 * u16_of_byte c1 + u16_of_byte c0)
           (256 * u16_of_byte d1 + u16_of_byte d0) /\
     codeSize h <> 0%Z /\ dataSize h <> 0%Z /\
     Z.of_nat (length payload) = (codeSize h + dataSize h)%Z).
Proof.
  intros H.
  apply readEOF1Header_accept in H
    as (Hp & i & _ & H4 & Hc & Hnz & Htot & Hshape).
  apply reachesScan_prefix in Hp as (rest & ->).
  destruct h as [cs ds]. cbn [codeSize dataSize] in *.
  destruct rest as [|k4 [|c1 [|c0 [|k7 rest]]]];
    destruct Hshape as [(H7 & -> & Hd)|(H7 & H10 & -> & Hd & Hdnz)];
    try discriminate.
  - left. injection H4 as ->. injection H7 as ->.
    exists c1, c0, rest. split; [reflexivity|].
    change (be16 (xef :: xca :: xfe :: x01 :: x01 :: c1 :: c0 :: x00 :: rest) 5)
      with (256 * u16_of_byte c1 + u16_of_byte c0)%Z in Hc.
    subst cs ds. split; [reflexivity|]. split; [assumption|].
    cbn [length] in Htot. lia.
  - right. injection H4 as ->. injection H7 as ->.
    destruct rest as [|d1 [|d0 [|k10 payload]]]; try discriminate.
    injection H10 as ->.
    exists c1, c0, d1, d0, payload. split; [reflexivity|].
    change (be16 (xef :: xca :: xfe :: x01 :: x01 :: c1 :: c0 :: x02 :: d1
                  :: d0 :: x00 :: payload) 5)
      with (256 * u16_of_byte c1 + u16_of_byte c0)%Z in Hc.
    change (be16 (xef :: xca :: xfe :: x01 :: x01 :: c1 :: c0 :: x02 :: d1
                  :: d0 :: x00 :: payload) 8)
      with (256 * u16_of_byte d1 + u16_of_byte d0)%Z in Hd.
    subst cs ds. split; [reflexivity|]. split; [assumption|].
    split; [assumption|]. cbn [length] in Htot. lia.
Qed.

(** X3: the buffers the parser accepts are exactly those made of the
    bytes EF CA FE 01, a Code declaration 01 hh ll of a nonzero size, either
    the terminator 00 or a Data declaration 02 hh ll of a nonzero size and
    then the terminator, and as many further bytes as the declared sizes
    add up to; the header returned holds the declared sizes. *)
Theorem accepted_language (code : list byte) (h : eof1Header) :
  readEOF1Header code = Val (h, None) <->
  (exists c1 c0 payload,
     code = xef :: xca :: xfe :: x01 :: x01 :: c1 :: c0 :: x00 :: payload /\
     h = mkHeader (256 * u16_of_byte c1 + u16_of_byte c0) 0 /\
     codeSize h <> 0%Z /\
     Z.of_nat (length payload) = codeSize h)
  \/
  (exists c1 c0 d1 d0 payload,
     code = xef :: xca :: xfe :: x01 :: x01 :: c1 :: c0 :: x02 :: d1 :: d0
            :: x00 :: payload /\
     h = mkHeader (256 * u16_of_byte c1 + u16_of_byte c0)
           (256 * u16_of_byte d1 + u16_of_byte d0) /\
     codeSize h <> 0%Z /\ dataSize h <> 0%Z /\
     Z.of_nat (length payload) = (codeSize h + dataSize h)%Z).
Proof.
  split; [apply accepted_shape|].
  intros [(c1 & c0 & payload & -> & -> & Hnz & Hlen)
         |(c1 & c0 & d1 & d0 & payload & -> & -> & Hnz & Hdnz & Hlen)];
    cbn [codeSize dataSize] in *.
  - rewrite verdict_code_only by assumption.
    now rewrite (proj2 (Z.eqb_eq _ _)) by lia.
  - rewrite verdict_code_data by assumption.
    now rewrite (proj2 (Z.eqb_eq _ _)) by lia.
Qed.

(** Appending bytes to an accepted buffer breaks the total size. *)
Lemma extension_rejected code h extra :
  readEOF1Header code = Val (h, None) ->
  extra <> [] ->
  readEOF1Header (code ++ extra)
  = Val (emptyHeader, Some ErrEOF1InvalidTotalSize).
Proof.
  intros H Hex.
  assert (Hlen : 0 < length extra).
  { destruct extra; [contradiction|cbn; lia]. }
  apply accepted_shape in H
    as [(c1 & c0 & payload & -> & -> & Hnz & Hl)
       |(c1 & c0 & d1 & d0 & payload & -> & -> & Hnz & Hdnz & Hl)];
    cbn [codeSize dataSize app] in *.
  - rewrite verdict_code_only by assumption. rewrite length_app.
    destruct (Z.eqb_spec (256 * u16_of_byte c1 + u16_of_byte c0)
                (Z.of_nat (length payload + length extra)));
      [lia|reflexivity].
  - rewrite verdict_code_data by assumption. rewrite length_app.
    destruct (Z.eqb_spec
                (256 * u16_of_byte c1 + u16_of_byte c0
                 + (256 * u16_of_byte d1 + u16_of_byte d0))
                (Z.of_nat (length payload + length extra)));
      [lia|reflexivity].
Qed.

(** X4: no accepted buffer is the beginning of another.  With one byte or
    more appended, an accepted buffer fails with [ErrEOF1InvalidTotalSize];
    cut short anywhere, it is not accepted by [validateEOF]. *)
Theorem accepted_prefix_free (code : list byte) (h : eof1Header) :
  readEOF1Header code = Val (h, None) ->
  (forall extra,
     extra <> [] ->
     readEOF1Header (code ++ extra)
     = Val (emptyHeader, Some ErrEOF1InvalidTotalSize)) /\
  (forall n, n < length code -> validateEOF (firstn n code) = Val false).
Proof.
  intros H. split.
  - intros extra Hex. now apply extension_rejected with h.
  - intros n Hn. unfold validateEOF.
    destruct (readEOF1Header_total (firstn n code)) as ([h' [e|]] & Hr);
      rewrite Hr; cbn [bind snd]; [reflexivity|].
    exfalso.
    assert (Hs : skipn n code <> []).
    { intros E. apply (f_equal (@length byte)) in E.
      rewrite length_skipn in E. cbn in E. lia. }
    pose proof (extension_rejected _ _ _ Hr Hs) as Hx.
    rewrite firstn_skipn in Hx. congruence.
Qed.

Lemma accepted_prefix_free_witness :
  readEOF1Header minimalContainer = Val (mkHeader 1 0, None) /\
  readEOF1Header (minimalContainer ++ [xaa])
  = Val (emptyHeader, Some ErrEOF1InvalidTotalSize) /\
  validateEOF (firstn 8 minimalContainer) = Val false.
Proof.
  split; [reflexivity|].
  destruct (accepted_prefix_free minimalContainer (mkHeader 1 0) eq_refl)
    as [Hext Hcut].
  split.
  - apply Hext. discriminate.
  - apply Hcut. cbn. lia.
Defined.

(** X5: the sizes of an accepted buffer.  [codeSize] lies between 1 and
    65535, [dataSize] between 0 and 65535, and the buffer is as long as its
    header (8 bytes without a data section, 11 bytes with one) and the two
    sizes together: 131081 bytes at most. *)
Theorem accepted_sizes (code : list byte) (h : eof1Header) :
  readEOF1Header code = Val (h, None) ->
  (1 <= codeSize h <= 65535)%Z /\
  (0 <= dataSize h <= 65535)%Z /\
  Z.of_nat (length code)
  = ((if (dataSize h =? 0)%Z then 8 else 11) + codeSize h + dataSize h)%Z /\
  (Z.of_nat (length code) <= 131081)%Z.
Proof.
  intros H.
  apply readEOF1Header_accept in H
    as (_ & i & _ & _ & Hc & Hnz & Htot & Hshape).
  pose proof (be16_range code 5) as R5. pose proof (be16_range code 8) as R8.
  destruct Hshape as [(_ & -> & Hd)|(_ & _ & -> & Hd & Hdnz)].
  - rewrite Hd in *. cbn [Z.eqb]. repeat split; lia.
  - destruct (Z.eqb_spec (dataSize h) 0); [contradiction|].
    repeat split; lia.
Qed.

Lemma accepted_sizes_witness :
  readEOF1Header codeAndDataContainer = Val (mkHeader 2 1, None) /\
  (1 <= 2 <= 65535)%Z /\
  (0 <= 1 <= 65535)%Z /\
  Z.of_nat (length codeAndDataContainer) = (11 + 2 + 1)%Z /\
  (Z.of_nat (length codeAndDataContainer) <= 131081)%Z.
Proof.
  split; [reflexivity|].
  exact (accepted_sizes codeAndDataContainer (mkHeader 2 1) eq_refl).
Defined.

(** ** The trusted reader on arbitrary buffers *)

(** A slice expression on a buffer with spare capacity is the slice
    expression on its backing array. *)
Lemma slice_backing code spare lo hi :
  WithCapacity.slice code spare lo hi = slice (code ++ spare) lo hi.
Proof. unfold WithCapacity.slice, slice. now rewrite length_app. Qed.

(** Within the length of the buffer the capacity makes no difference. *)
Lemma slice_within code spare lo hi :
  hi <= length code ->
  WithCapacity.slice code spare lo hi = slice code lo hi.
Proof.
  intros Hhi. unfold WithCapacity.slice, slice.
  replace (hi <=? length code + length spare) with true
    by (symmetry; apply Nat.leb_le; lia).
  replace (hi <=? length code) with true
    by (symmetry; now apply Nat.leb_le).
  destruct (lo <=? hi); [|reflexivity]. cbn [andb]. f_equal.
  rewrite skipn_app, firstn_app, length_skipn.
  replace (hi - lo - (length code - lo)) with 0 by lia.
  cbn [firstn]. now rewrite app_nil_r.
Qed.

Lemma be16_app code spare j :
  j + 2 <= length code -> be16 (code ++ spare) j = be16 code j.
Proof.
  intros Hj. apply be16_agree; apply nth_error_app1; lia.
Qed.

(** X6: [readValidEOF1Header] checks nothing.  Whatever the capacity, it
    panics on a buffer of fewer than 8 bytes, and on a buffer of 8 bytes
    or more whose byte at offset 7 is not 2 it returns the big-endian word
    at offsets 5-6 as [codeSize] and 0 as [dataSize].  When the byte at
    offset 7 is 2, it panics if the capacity is less than 10, and otherwise
    returns as [dataSize] the word at offsets 8-9 of the backing array,
    which lies past the length of a buffer of 8 or 9 bytes.  On a buffer
    without spare capacity it is the reader of the embedding above. *)
Theorem readValidEOF1Header_unchecked (code spare : list byte) :
  (length code < 8 ->
   WithCapacity.readValidEOF1Header code spare = IndexPanic) /\
  (8 <= length code -> nth_error code 7 <> Some x02 ->
   WithCapacity.readValidEOF1Header code spare
   = Val (mkHeader (be16 code 5) 0)) /\
  (nth_error code 7 = Some x02 -> 10 <= length code + length spare ->
   WithCapacity.readValidEOF1Header code spare
   = Val (mkHeader (be16 code 5) (be16 (code ++ spare) 8))) /\
  (nth_error code 7 = Some x02 -> length code + length spare < 10 ->
   WithCapacity.readValidEOF1Header code spare = IndexPanic) /\
  WithCapacity.readValidEOF1Header code [] = readValidEOF1Header code.
Proof.
  unfold WithCapacity.readValidEOF1Header, readValidEOF1Header.
  cbn [eofMagic length Nat.add]. rewrite !slice_backing.
  split; [|split; [|split; [|split]]].
  - intros Hlen.
    assert (Hk : index code 7 = IndexPanic).
    { unfold index.
      replace (nth_error code 7) with (@None byte); [reflexivity|].
      symmetry. apply nth_error_None. lia. }
    destruct (Nat.le_gt_cases 7 (length (code ++ spare))) as [H7|H7].
    + rewrite (read_be16 (code ++ spare) 5) by lia. now rewrite Hk.
    + unfold slice.
      replace (7 <=? length (code ++ spare)) with false
        by (symmetry; apply Nat.leb_gt; lia).
      reflexivity.
  - intros Hlen H7.
    destruct (index_lt code 7) as (k & Hk & Hi); [lia|].
    rewrite (read_be16 (code ++ spare) 5) by (rewrite length_app; lia).
    rewrite Hi. cbn [bind]. rewrite byte_eqb_neq by congruence.
    unfold set_codeSize, emptyHeader. cbn [dataSize].
    now rewrite be16_app by lia.
  - intros H7 Hcap.
    assert (7 < length code) by (apply nth_error_Some; congruence).
    rewrite (read_be16 (code ++ spare) 5) by (rewrite length_app; lia).
    rewrite (index_some _ _ _ H7). cbn [bind].
    change (Byte.eqb x02 x02) with true. cbv iota.
    rewrite (read_be16 (code ++ spare) 8) by (rewrite length_app; lia).
    unfold set_dataSize, set_codeSize, emptyHeader. cbn [codeSize dataSize].
    now rewrite (be16_app code spare 5) by lia.
  - intros H7 Hcap.
    assert (7 < length code) by (apply nth_error_Some; congruence).
    rewrite (read_be16 (code ++ spare) 5) by (rewrite length_app; lia).
    rewrite (index_some _ _ _ H7). cbn [bind].
    change (Byte.eqb x02 x02) with true. cbv iota.
    unfold slice.
    replace (10 <=? length (code ++ spare)) with false
      by (symmetry; apply Nat.leb_gt; rewrite length_app; lia).
    reflexivity.
  - now rewrite app_nil_r.
Qed.

Lemma readValidEOF1Header_unchecked_witness :
  WithCapacity.readValidEOF1Header unterminatedContainer [x00; x00; x00]
  = IndexPanic /\
  WithCapacity.readValidEOF1Header
    [xff; xff; xff; xff; xff; x01; x02; xff] [] = Val (mkHeader 258 0) /\
  WithCapacity.readValidEOF1Header
    [xef; xca; xfe; x01; x01; x00; x02; x02; x00] [x04; x00]
  = Val (mkHeader 2 4) /\
  WithCapacity.readValidEOF1Header
    [xef; xca; xfe; x01; x01; x00; x02; x02; x00] [] = IndexPanic.
Proof.
  split; [|split; [|split]].
  - apply (proj1 (readValidEOF1Header_unchecked unterminatedContainer
                    [x00; x00; x00])).
    cbn. lia.
  - apply (proj1 (proj2 (readValidEOF1Header_unchecked
                           [xff; xff; xff; xff; xff; x01; x02; xff] []))).
    + cbn. lia.
    + discriminate.
  - apply (proj1 (proj2 (proj2 (readValidEOF1Header_unchecked
             [xef; xca; xfe; x01; x01; x00; x02; x02; x00] [x04; x00])))).
    + reflexivity.
    + cbn. lia.
  - apply (proj1 (proj2 (proj2 (proj2 (readValidEOF1Header_unchecked
             [xef; xca; xfe; x01; x01; x00; x02; x02; x00] []))))).
    + reflexivity.
    + cbn. lia.
Defined.

(** ** Which check an error comes from *)

Lemma turnsLeft_recorded header :
  turnsLeft header < 3 -> codeSize header <> 0%Z.
Proof.
  unfold turnsLeft. destruct (Z.eqb_spec (codeSize header) 0); [lia|auto].
Qed.

Lemma sectionBody_break code i header i' header' :
  sectionBody code (length code) i header = Val (Break i' header') ->
  i' = i + 1 /\ header' = header /\ nth_error code i = Some x00.
Proof.
  intros H. destruct (nth_error code i) as [k|] eqn:Hk.
  2:{ unfold sectionBody, index in H. rewrite Hk in H. discriminate. }
  kind_cases k.
  - rewrite (sectionBody_terminator _ _ _ Hk) in H. injection H as <- <-.
    auto.
  - rewrite (sectionBody_code _ _ _ Hk) in H. unfold codeSectionRule in H.
    destruct (negb _); [discriminate|]. destruct (_ <? _); [discriminate|].
    destruct (_ =? _)%Z; discriminate.
  - rewrite (sectionBody_data _ _ _ Hk) in H. unfold dataSectionRule in H.
    cbv zeta in H. fold (be16 code (i + 1)) in H.
    destruct (codeSize header =? 0)%Z; [discriminate|].
    destruct (negb _); [discriminate|]. destruct (_ <? _); [discriminate|].
    destruct (be16 code (i + 1) =? 0)%Z; discriminate.
  - rewrite (sectionBody_unknown _ _ _ _ Hk) in H by assumption.
    discriminate.
Qed.

(** The errors a turn of the loop returns are neither those of the prefix
    nor those of the checks after the loop, and with a code section
    recorded they are none of those that tell it is missing. *)
Lemma sectionBody_return code i header r :
  sectionBody code (length code) i header = Val (Return r) ->
  exists e,
    r = (emptyHeader, Some e) /\
    prefixError e = false /\
    e <> ErrEOF1CodeSectionMissing /\ e <> ErrEOF1InvalidTotalSize /\
    (codeSize header <> 0%Z -> firstDeclarationError e = false).
Proof.
  intros H. destruct (nth_error code i) as [k|] eqn:Hk.
  2:{ unfold sectionBody, index in H. rewrite Hk in H. discriminate. }
  kind_cases k.
  - rewrite (sectionBody_terminator _ _ _ Hk) in H. discriminate.
  - rewrite (sectionBody_code _ _ _ Hk) in H. unfold codeSectionRule in H.
    destruct (Z.eqb_spec (codeSize header) 0) as [Ec|Ec]; cbn [negb] in H.
    + destruct (length code <? i + 3).
      * injection H as <-. eexists. split; [reflexivity|].
        repeat split; try discriminate. intros; contradiction.
      * destruct (be16 code (i + 1) =? 0)%Z; [|discriminate].
        injection H as <-. eexists. split; [reflexivity|].
        repeat split; try discriminate. intros; contradiction.
    + injection H as <-. eexists. split; [reflexivity|].
      repeat split; discriminate.
  - rewrite (sectionBody_data _ _ _ Hk) in H. unfold dataSectionRule in H.
    cbv zeta in H. fold (be16 code (i + 1)) in H.
    destruct (Z.eqb_spec (codeSize header) 0) as [Ec|Ec].
    + injection H as <-. eexists. split; [reflexivity|].
      repeat split; try discriminate. intros; contradiction.
    + destruct (negb (dataSize header =? 0)%Z).
      * injection H as <-. eexists. split; [reflexivity|].
        repeat split; discriminate.
      * destruct (length code - (i + 1) <? 2).
        -- injection H as <-. eexists. split; [reflexivity|].
           repeat split; discriminate.
        -- destruct (be16 code (i + 1) =? 0)%Z; [|discriminate].
           injection H as <-. eexists. split; [reflexivity|].
           repeat split; discriminate.
  - rewrite (sectionBody_unknown _ _ _ _ Hk) in H by assumption.
    injection H as <-. eexists. split; [reflexivity|].
    repeat split; discriminate.
Qed.

Lemma postScan_stage len i header :
  match snd (postScan len i header) with
  | Some e =>
      prefixError e = false /\
      (codeSize header <> 0%Z -> firstDeclarationError e = false)
  | None => True
  end.
Proof.
  unfold postScan. destruct (Z.eqb_spec (codeSize header) 0).
  - cbn. split; [reflexivity|]. intros; contradiction.
  - destruct (negb _); cbn; auto.
Qed.

(** Whatever way the loop is left, the result is none of the errors of the
    prefix; if a code section was recorded on entry, it is none of the
    errors that tell it is missing. *)
Lemma sectionLoop_stage code : forall fuel i header x,
  sectionLoop fuel code (length code) i header = Val x ->
  match snd (afterLoop (length code) x) with
  | Some e =>
      prefixError e = false /\
      (codeSize header <> 0%Z -> firstDeclarationError e = false)
  | None => True
  end.
Proof.
  induction fuel as [|fuel IH]; intros i header x H; [discriminate|].
  destruct (Nat.lt_ge_cases i (length code)) as [Hi|Hi].
  - rewrite sectionLoop_step in H by assumption.
    destruct (sectionBody code (length code) i header) as [c| |] eqn:E;
      try discriminate.
    cbn [bind] in H. destruct c as [i' h'|i' h'|r].
    + apply sectionBody_continue in E as (_ & _ & Hlt).
      pose proof (turnsLeft_le_3 header).
      assert (Hrec : codeSize h' <> 0%Z) by (apply turnsLeft_recorded; lia).
      specialize (IH _ _ _ H).
      destruct (snd (afterLoop (length code) x)); [|exact I].
      destruct IH as [Hp Hf]. auto.
    + apply sectionBody_break in E as (_ & -> & _). injection H as <-.
      apply postScan_stage.
    + apply sectionBody_return in E as (e & -> & Hp & _ & _ & Hf).
      injection H as <-. cbn. auto.
  - rewrite sectionLoop_stop in H by assumption. injection H as <-.
    apply postScan_stage.
Qed.

Lemma readEOF1Header_afterLoop code :
  reachesScan code ->
  exists x,
    scanned code = Val x /\
    readEOF1Header code = Val (afterLoop (length code) x).
Proof.
  intros Hp. destruct (scanned_total code Hp) as (x & Hx). exists x.
  split; [assumption|].
  rewrite readEOF1Header_scan by assumption. rewrite Hx. cbn [bind].
  now destruct x.
Qed.

Lemma isEOFCode_true code :
  isEOFCode code = Val true <->
  hasFormatByte code = Val true /\ hasEOFMagic code = Val true.
Proof.
  unfold isEOFCode. rewrite hasFormatByte_eq. cbn [bind].
  destruct code as [|c0 rest].
  - split; [discriminate|]. intros [H _]. discriminate.
  - destruct (Byte.eqb c0 eofFormatByte).
    + split; [intros H; now split|]. now intros [_ H].
    + split; [discriminate|]. intros [H _]. discriminate.
Qed.

(** The four stages a buffer can get to. *)
Lemma readEOF1Header_stage code :
  (hasFormatByte code = Val false /\
   readEOF1Header code = Val (emptyHeader, Some ErrEOF1InvalidFormatByte))
  \/
  (hasFormatByte code = Val true /\ hasEOFMagic code = Val false /\
   readEOF1Header code = Val (emptyHeader, Some ErrEOF1InvalidMagic))
  \/
  (hasFormatByte code = Val true /\ hasEOFMagic code = Val true /\
   nth_error code 3 <> Some eof1Version /\
   readEOF1Header code = Val (emptyHeader, Some ErrEOF1InvalidVersion))
  \/
  (reachesScan code /\
   exists r,
     readEOF1Header code = Val r /\
     match snd r with Some e => prefixError e = false | None => True end).
Proof.
  destruct (reachesScan_dec code) as [Hp|Hp].
  - right; right; right. split; [assumption|].
    destruct (readEOF1Header_afterLoop code Hp) as (x & Hx & Hr).
    eexists. split; [exact Hr|].
    pose proof (sectionLoop_stage code _ _ _ _ Hx) as Hs.
    destruct (snd (afterLoop (length code) x)); [|exact I]. apply Hs.
  - unfold reachesScan in Hp. unfold readEOF1Header.
    rewrite hasFormatByte_eq, hasEOFMagic_eq in *. cbn [bind].
    destruct code as [|c0 code]; [left; split; reflexivity|].
    destruct (Byte.eqb c0 eofFormatByte); cbn [negb];
      [right|left; split; reflexivity].
    destruct code as [|c1 [|c2 code]];
      try (left; repeat split; reflexivity).
    destruct (Byte.eqb c1 xca && Byte.eqb c2 xfe); cbn [negb];
      [right; left|left; repeat split; reflexivity].
    split; [reflexivity|]. split; [reflexivity|].
    destruct code as [|c3 code]; [split; [discriminate|reflexivity]|].
    cbn [length eofMagic Nat.add nth_error] in *.
    destruct (Byte.byte_eq_dec c3 eof1Version) as [->|N3].
    + exfalso. apply Hp. repeat split.
    + split; [congruence|].
      cbn [Nat.leb index nth_error bind].
      now rewrite (byte_eqb_neq _ _ N3).
Qed.

(** X7: the three errors of the prefix tell which of its checks failed.
    [ErrEOF1InvalidFormatByte] is returned exactly when [hasFormatByte]
    fails, [ErrEOF1InvalidMagic] exactly when [hasFormatByte] holds and
    [hasEOFMagic] fails, and [ErrEOF1InvalidVersion] exactly when
    [isEOFCode] holds and the byte at offset 3 is missing or is not 1. *)
Theorem prefix_errors (code : list byte) :
  (readEOF1Header code = Val (emptyHeader, Some ErrEOF1InvalidFormatByte)
   <-> hasFormatByte code = Val false) /\
  (readEOF1Header code = Val (emptyHeader, Some ErrEOF1InvalidMagic)
   <-> hasFormatByte code = Val true /\ hasEOFMagic code = Val false) /\
  (readEOF1Header code = Val (emptyHeader, Some ErrEOF1InvalidVersion)
   <-> isEOFCode code = Val true /\ nth_error code 3 <> Some eof1Version).
Proof.
  rewrite isEOFCode_true.
  destruct (readEOF1Header_stage code)
    as [(Hf & Hr)|[(Hf & Hm & Hr)|[(Hf & Hm & Hv & Hr)
       |((Hf & Hm & Hv) & r & Hr & Hs)]]];
    rewrite Hr.
  - split; [split; auto|]. split.
    + split; [discriminate|]. intros [H _]. congruence.
    + split; [discriminate|]. intros [[H _] _]. congruence.
  - split; [split; [discriminate|congruence]|]. split.
    + split; auto.
    + split; [discriminate|]. intros [[_ H] _]. congruence.
  - split; [split; [discriminate|congruence]|]. split.
    + split; [discriminate|]. intros [_ H]. congruence.
    + split; auto.
  - split; [|split].
    + split; [|congruence].
      intros H. injection H as ->. cbn in Hs. discriminate.
    + split; [|intros [_ H]; congruence].
      intros H. injection H as ->. cbn in Hs. discriminate.
    + split; [|intros [_ H]; exfalso; apply H; exact Hv].
      intros H. injection H as ->. cbn in Hs. discriminate.
Qed.

(** ** The first section declaration *)

(** What the first turn of the loop makes of a buffer. *)
Lemma first_turn_table code :
  reachesScan code ->
  (length code = 4 /\ nth_error code 4 = None /\
   readEOF1Header code = Val (emptyHeader, Some ErrEOF1CodeSectionMissing))
  \/
  (4 < length code /\ nth_error code 4 = Some x00 /\
   readEOF1Header code = Val (emptyHeader, Some ErrEOF1CodeSectionMissing))
  \/
  (4 < length code /\ nth_error code 4 = Some x02 /\
   readEOF1Header code
   = Val (emptyHeader, Some ErrEOF1DataSectionBeforeCodeSection))
  \/
  (4 < length code /\ nth_error code 4 = Some x01 /\ length code < 7 /\
   readEOF1Header code
   = Val (emptyHeader, Some ErrEOF1CodeSectionSizeMissing))
  \/
  (4 < length code /\ nth_error code 4 = Some x01 /\ 7 <= length code /\
   be16 code 5 = 0%Z /\
   readEOF1Header code = Val (emptyHeader, Some ErrEOF1EmptyCodeSection))
  \/
  (4 < length code /\
   (exists k, nth_error code 4 = Some k /\
              k <> x00 /\ k <> x01 /\ k <> x02) /\
   readEOF1Header code = Val (emptyHeader, Some ErrEOF1UnknownSection))
  \/
  (4 < length code /\ nth_error code 4 = Some x01 /\ 7 <= length code /\
   be16 code 5 <> 0%Z /\
   exists r,
     readEOF1Header code = Val r /\
     match snd r with
     | Some e => firstDeclarationError e = false
     | None => True
     end).
Proof.
  intros Hp. pose proof (reachesScan_length code Hp) as Hlen.
  destruct (readEOF1Header_afterLoop code Hp) as (x & Hx & Hr).
  rewrite scanned_three in Hx by lia. unfold sectionsOffset in Hx.
  cbn [eofMagic length Nat.add] in Hx.
  destruct (Nat.lt_ge_cases 4 (length code)) as [H4|H4].
  2:{ left. rewrite sectionLoop_stop in Hx by assumption.
      injection Hx as <-. split; [lia|].
      split; [now apply nth_error_None|exact Hr]. }
  right. rewrite sectionLoop_step in Hx by assumption.
  destruct (index_lt code 4 H4) as (k & Hk & _). kind_cases k.
  - left. rewrite (sectionBody_terminator _ _ _ Hk) in Hx.
    injection Hx as <-. auto.
  - do 2 right. rewrite (sectionBody_code _ _ _ Hk) in Hx.
    unfold codeSectionRule in Hx. hdr_simpl.
    cbn [Z.eqb negb Nat.add] in Hx.
    destruct (Nat.ltb_spec (length code) 7) as [L7|L7].
    { left. injection Hx as <-. auto. }
    right. destruct (Z.eqb_spec (be16 code 5) 0) as [V5|V5].
    { left. injection Hx as <-. auto. }
    do 2 right. cbn [bind] in Hx.
    split; [assumption|]. split; [assumption|]. split; [assumption|].
    split; [assumption|]. eexists. split; [exact Hr|].
    pose proof (sectionLoop_stage code _ _ _ _ Hx) as Hs.
    destruct (snd (afterLoop (length code) x)); [|exact I].
    now apply Hs.
  - right. left. rewrite (sectionBody_data _ _ _ Hk) in Hx.
    injection Hx as <-. auto.
  - do 4 right. left.
    rewrite (sectionBody_unknown _ _ _ _ Hk) in Hx by assumption.
    injection Hx as <-. split; [assumption|]. split; [|exact Hr].
    exists k. auto.
Qed.

(** X8: once the prefix is right, four errors tell what stands where the
    first section declaration should.  [ErrEOF1CodeSectionMissing] is
    returned exactly when the buffer ends after the version byte or has a
    terminator at offset 4, [ErrEOF1DataSectionBeforeCodeSection] exactly
    when the byte at offset 4 is 2, [ErrEOF1CodeSectionSizeMissing] exactly
    when that byte is 1 and the buffer has fewer than 7 bytes, and
    [ErrEOF1EmptyCodeSection] exactly when that byte is 1 and the size at
    offsets 5-6 is 0. *)
Theorem first_declaration_errors (code : list byte) :
  reachesScan code ->
  (readEOF1Header code = Val (emptyHeader, Some ErrEOF1CodeSectionMissing)
   <-> length code = 4 \/ nth_error code 4 = Some x00) /\
  (readEOF1Header code
   = Val (emptyHeader, Some ErrEOF1DataSectionBeforeCodeSection)
   <-> nth_error code 4 = Some x02) /\
  (readEOF1Header code = Val (emptyHeader, Some ErrEOF1CodeSectionSizeMissing)
   <-> nth_error code 4 = Some x01 /\ length code < 7) /\
  (readEOF1Header code = Val (emptyHeader, Some ErrEOF1EmptyCodeSection)
   <-> nth_error code 4 = Some x01 /\ 7 <= length code /\
       be16 code 5 = 0%Z).
Proof.
  intros Hp.
  destruct (first_turn_table code Hp)
    as [(L & Hk & Hr)|[(L & Hk & Hr)|[(L & Hk & Hr)|[(L & Hk & L7 & Hr)
       |[(L & Hk & L7 & V5 & Hr)|[(L & (k & Hk & N0 & N1 & N2) & Hr)
       |(L & Hk & L7 & V5 & r & Hr & Hs)]]]]]];
    (split; [|split; [|split]]);
    try (table_iff Hr Hr); try (table_iff Hr Hs).
Qed.

Lemma first_declaration_errors_witness :
  reachesScan bareTerminatorContainer /\
  (readEOF1Header bareTerminatorContainer
   = Val (emptyHeader, Some ErrEOF1CodeSectionMissing)
   <-> length bareTerminatorContainer = 4 \/
       nth_error bareTerminatorContainer 4 = Some x00) /\
  (readEOF1Header bareTerminatorContainer
   = Val (emptyHeader, Some ErrEOF1DataSectionBeforeCodeSection)
   <-> nth_error bareTerminatorContainer 4 = Some x02) /\
  (readEOF1Header bareTerminatorContainer
   = Val (emptyHeader, Some ErrEOF1CodeSectionSizeMissing)
   <-> nth_error bareTerminatorContainer 4 = Some x01 /\
       length bareTerminatorContainer < 7) /\
  (readEOF1Header bareTerminatorContainer
   = Val (emptyHeader, Some ErrEOF1EmptyCodeSection)
   <-> nth_error bareTerminatorContainer 4 = Some x01 /\
       7 <= length bareTerminatorContainer /\
       be16 bareTerminatorContainer 5 = 0%Z).
Proof.
  assert (Hp : reachesScan bareTerminatorContainer) by (repeat split).
  split; [exact Hp|].
  exact (first_declaration_errors bareTerminatorContainer Hp).
Defined.

(** ** After the code section declaration *)

Lemma postScan_recorded len i header :
  codeSize header <> 0%Z ->
  match snd (postScan len i header) with
  | Some e => e = ErrEOF1InvalidTotalSize
  | None => True
  end.
Proof.
  intros Hc. unfold postScan.
  destruct (Z.eqb_spec (codeSize header) 0); [contradiction|].
  destruct (negb _); cbn; auto.
Qed.

(** What the second and third turns of the loop make of a buffer whose
    code section declaration is in order. *)
Lemma later_turns_table code :
  reachesScan code ->
  nth_error code 4 = Some x01 ->
  7 <= length code ->
  be16 code 5 <> 0%Z ->
  (nth_error code 7 = Some x01 /\
   readEOF1Header code = Val (emptyHeader, Some ErrEOF1MultipleCodeSections))
  \/
  (nth_error code 7 = Some x02 /\ length code < 10 /\
   readEOF1Header code
   = Val (emptyHeader, Some ErrEOF1DataSectionSizeMissing))
  \/
  (nth_error code 7 = Some x02 /\ 10 <= length code /\
   be16 code 8 = 0%Z /\
   readEOF1Header code = Val (emptyHeader, Some ErrEOF1EmptyDataSection))
  \/
  (nth_error code 7 = Some x02 /\ 10 <= length code /\
   be16 code 8 <> 0%Z /\ nth_error code 10 = Some x01 /\
   readEOF1Header code = Val (emptyHeader, Some ErrEOF1MultipleCodeSections))
  \/
  (nth_error code 7 = Some x02 /\ 10 <= length code /\
   be16 code 8 <> 0%Z /\ nth_error code 10 = Some x02 /\
   readEOF1Header code = Val (emptyHeader, Some ErrEOF1MultipleDataSections))
  \/
  ((exists k, nth_error code 7 = Some k /\
              k <> x00 /\ k <> x01 /\ k <> x02) /\
   readEOF1Header code = Val (emptyHeader, Some ErrEOF1UnknownSection))
  \/
  (nth_error code 7 = Some x02 /\ 10 <= length code /\
   be16 code 8 <> 0%Z /\
   (exists k, nth_error code 10 = Some k /\
              k <> x00 /\ k <> x01 /\ k <> x02) /\
   readEOF1Header code = Val (emptyHeader, Some ErrEOF1UnknownSection))
  \/
  ((nth_error code 7 = None \/ nth_error code 7 = Some x00 \/
    (nth_error code 7 = Some x02 /\ 10 <= length code /\
     be16 code 8 <> 0%Z /\
     (nth_error code 10 = None \/ nth_error code 10 = Some x00))) /\
   exists r,
     readEOF1Header code = Val r /\
     match snd r with
     | Some e => e = ErrEOF1InvalidTotalSize
     | None => True
     end).
Proof.
  intros Hp H4 L7 V5.
  pose proof (reachesScan_length code Hp) as Hlen.
  destruct (readEOF1Header_afterLoop code Hp) as (x & Hx & Hr).
  rewrite scanned_three in Hx by lia. unfold sectionsOffset in Hx.
  cbn [eofMagic length Nat.add] in Hx.
  assert (L4 : 4 < length code) by lia.
  rewrite sectionLoop_step in Hx by assumption.
  rewrite (sectionBody_code _ _ _ H4) in Hx.
  unfold codeSectionRule in Hx. hdr_simpl.
  cbn [Z.eqb negb Nat.add] in Hx.
  destruct (Nat.ltb_spec (length code) 7); [lia|].
  destruct (Z.eqb_spec (be16 code 5) 0); [contradiction|].
  cbn [bind] in Hx.
  (* second turn, at offset 7 *)
  destruct (Nat.lt_ge_cases 7 (length code)) as [H7|H7].
  2:{ do 7 right. rewrite sectionLoop_stop in Hx by assumption.
      injection Hx as <-.
      split; [left; apply nth_error_None; lia|].
      eexists. split; [exact Hr|]. now apply postScan_recorded. }
  rewrite sectionLoop_step in Hx by assumption.
  destruct (index_lt code 7 H7) as (k & Hk & _). kind_cases k.
  - do 7 right. rewrite (sectionBody_terminator _ _ _ Hk) in Hx.
    injection Hx as <-. split; [auto|].
    eexists. split; [exact Hr|]. now apply postScan_recorded.
  - left. rewrite (sectionBody_code _ _ _ Hk) in Hx.
    unfold codeSectionRule in Hx. cbn [codeSize] in Hx.
    destruct (Z.eqb_spec (be16 code 5) 0); [contradiction|].
    injection Hx as <-. auto.
  - right. rewrite (sectionBody_data _ _ _ Hk) in Hx.
    unfold dataSectionRule in Hx.
    cbn [codeSize dataSize Z.eqb negb Nat.add] in Hx.
    change (256 * byteZ code 8 + byteZ code 9)%Z with (be16 code 8) in Hx.
    destruct (Z.eqb_spec (be16 code 5) 0); [contradiction|].
    destruct (Nat.ltb_spec (length code - 8) 2) as [L10|L10].
    { left. injection Hx as <-. split; [assumption|]. split; [lia|exact Hr]. }
    right. destruct (Z.eqb_spec (be16 code 8) 0) as [V8|V8].
    { left. injection Hx as <-. split; [assumption|]. split; [lia|auto]. }
    right. cbn [bind] in Hx.
    (* third turn, at offset 10 *)
    destruct (Nat.lt_ge_cases 10 (length code)) as [H10|H10].
    2:{ do 4 right. rewrite sectionLoop_stop in Hx by assumption.
        injection Hx as <-. split.
        - do 2 right. split; [assumption|]. split; [lia|].
          split; [assumption|]. left. apply nth_error_None. lia.
        - eexists. split; [exact Hr|]. now apply postScan_recorded. }
    rewrite sectionLoop_step in Hx by assumption.
    destruct (index_lt code 10 H10) as (k & Hk10 & _). kind_cases k.
    + do 4 right. rewrite (sectionBody_terminator _ _ _ Hk10) in Hx.
      injection Hx as <-. split.
      * do 2 right. split; [assumption|]. split; [lia|]. auto.
      * eexists. split; [exact Hr|]. now apply postScan_recorded.
    + left. rewrite (sectionBody_code _ _ _ Hk10) in Hx.
      unfold codeSectionRule in Hx. cbn [codeSize] in Hx.
      destruct (Z.eqb_spec (be16 code 5) 0); [contradiction|].
      injection Hx as <-. split; [assumption|]. split; [lia|]. auto.
    + right. left. rewrite (sectionBody_data _ _ _ Hk10) in Hx.
      unfold dataSectionRule in Hx. cbn [codeSize dataSize] in Hx.
      destruct (Z.eqb_spec (be16 code 5) 0); [contradiction|].
      destruct (Z.eqb_spec (be16 code 8) 0); [contradiction|].
      injection Hx as <-. split; [assumption|]. split; [lia|]. auto.
    + do 3 right. left.
      rewrite (sectionBody_unknown _ _ _ _ Hk10) in Hx by assumption.
      injection Hx as <-. split; [assumption|]. split; [lia|].
      split; [assumption|]. split; [|exact Hr]. exists k. auto.
  - do 5 right. left.
    rewrite (sectionBody_unknown _ _ _ _ Hk) in Hx by assumption.
    injection Hx as <-. split; [|exact Hr]. exists k. auto.
Qed.

(** X9: after a code section declaration that is in order, four errors
    tell what follows it.  [ErrEOF1MultipleCodeSections] is returned
    exactly when the byte at offset 7 is 1, or a data section declaration
    in order is followed by the byte 1 at offset 10;
    [ErrEOF1DataSectionSizeMissing] exactly when the byte at offset 7 is 2
    and the buffer has fewer than 10 bytes; [ErrEOF1EmptyDataSection]
    exactly when that byte is 2 and the size at offsets 8-9 is 0; and
    [ErrEOF1MultipleDataSections] exactly when a data section declaration
    in order is followed by the byte 2 at offset 10. *)
Theorem later_declaration_errors (code : list byte) :
  reachesScan code ->
  nth_error code 4 = Some x01 ->
  7 <= length code ->
  be16 code 5 <> 0%Z ->
  (readEOF1Header code = Val (emptyHeader, Some ErrEOF1MultipleCodeSections)
   <-> nth_error code 7 = Some x01 \/
       (nth_error code 7 = Some x02 /\ 10 <= length code /\
        be16 code 8 <> 0%Z /\ nth_error code 10 = Some x01)) /\
  (readEOF1Header code = Val (emptyHeader, Some ErrEOF1DataSectionSizeMissing)
   <-> nth_error code 7 = Some x02 /\ length code < 10) /\
  (readEOF1Header code = Val (emptyHeader, Some ErrEOF1EmptyDataSection)
   <-> nth_error code 7 = Some x02 /\ 10 <= length code /\
       be16 code 8 = 0%Z) /\
  (readEOF1Header code = Val (emptyHeader, Some ErrEOF1MultipleDataSections)
   <-> nth_error code 7 = Some x02 /\ 10 <= length code /\
       be16 code 8 <> 0%Z /\ nth_error code 10 = Some x02).
Proof.
  intros Hp H4 L7 V5.
  destruct (later_turns_table code Hp H4 L7 V5)
    as [(Hk & Hr)|[(Hk & L10 & Hr)|[(Hk & L10 & V8 & Hr)
       |[(Hk & L10 & V8 & Hk10 & Hr)|[(Hk & L10 & V8 & Hk10 & Hr)
       |[((k & Hk & N0 & N1 & N2) & Hr)
       |[(Hk & L10 & V8 & (k & Hk10 & N0 & N1 & N2) & Hr)
       |(Hk & r & Hr & Hs)]]]]]]];
    (split; [|split; [|split]]);
    try (table_iff Hr Hr); try (table_iff Hr Hs).
Qed.

Lemma later_declaration_errors_witness :
  reachesScan codeAndDataContainer /\
  nth_error codeAndDataContainer 4 = Some x01 /\
  7 <= length codeAndDataContainer /\
  be16 codeAndDataContainer 5 <> 0%Z /\
  (readEOF1Header codeAndDataContainer
   = Val (emptyHeader, Some ErrEOF1MultipleDataSections)
   <-> nth_error codeAndDataContainer 7 = Some x02 /\
       10 <= length codeAndDataContainer /\
       be16 codeAndDataContainer 8 <> 0%Z /\
       nth_error codeAndDataContainer 10 = Some x02).
Proof.
  assert (Hp : reachesScan codeAndDataContainer) by (repeat split).
  assert (L7 : 7 <= length codeAndDataContainer) by (cbn; lia).
  assert (V5 : be16 codeAndDataContainer 5 <> 0%Z) by discriminate.
  split; [exact Hp|]. split; [reflexivity|]. split; [exact L7|].
  split; [exact V5|].
  exact (proj2 (proj2 (proj2
           (later_declaration_errors codeAndDataContainer Hp eq_refl L7 V5)))).
Defined.

(** ** The tests of the repository *)

Lemma validateEOF_of_header code h :
  readEOF1Header code = Val (h, None) -> validateEOF code = Val true.
Proof. intros H. unfold validateEOF. now rewrite H. Qed.

Lemma validateEOF_of_error code h e :
  readEOF1Header code = Val (h, Some e) -> validateEOF code = Val false.
Proof. intros H. unfold validateEOF. now rewrite H. Qed.

Lemma readValidLoop_pass : forall tests failed,
  Forall (fun t =>
            readEOF1Header (Hex2Bytes (Tests.code t))
            = Val (mkHeader (Tests.codeSize t) (Tests.dataSize t), None))
    tests ->
  Tests.readValidLoop tests failed = Val failed.
Proof.
  induction tests as [|t tests IH]; intros failed H; [reflexivity|].
  inversion H as [|? ? Ht Hrest]; subst.
  cbn [Tests.readValidLoop]. rewrite Ht. cbn [bind].
  rewrite !Z.eqb_refl. cbn [negb]. now apply IH.
Qed.

Lemma readInvalidLoop_pass (Error : error -> string) : forall tests failed,
  Forall (fun t =>
            exists e,
              readEOF1Header (Hex2Bytes (Tests.icode t))
              = Val (emptyHeader, Some e) /\
              Tests.error t = Error e)
    tests ->
  Tests.readInvalidLoop Error tests failed = Val failed.
Proof.
  induction tests as [|t tests IH]; intros failed H; [reflexivity|].
  inversion H as [|? ? (e & Ht & He) Hrest]; subst.
  cbn [Tests.readInvalidLoop]. rewrite Ht. cbn [bind snd].
  rewrite He, String.eqb_refl. cbn [negb]. now apply IH.
Qed.

Lemma validateValidLoop_pass : forall tests failed,
  Forall (fun t => validateEOF (Hex2Bytes (Tests.code t)) = Val true) tests ->
  Tests.validateValidLoop tests failed = Val failed.
Proof.
  induction tests as [|t tests IH]; intros failed H; [reflexivity|].
  inversion H as [|? ? Ht Hrest]; subst.
  cbn [Tests.validateValidLoop]. rewrite Ht. cbn [bind negb]. now apply IH.
Qed.

Lemma validateInvalidLoop_pass : forall tests failed,
  Forall (fun t => validateEOF (Hex2Bytes (Tests.icode t)) = Val false)
    tests ->
  Tests.validateInvalidLoop tests failed = Val failed.
Proof.
  induction tests as [|t tests IH]; intros failed H; [reflexivity|].
  inversion H as [|? ? Ht Hrest]; subst.
  cbn [Tests.validateInvalidLoop]. rewrite Ht. cbn [bind]. now apply IH.
Qed.

(** Every vector of [eof1ValidTests] parses to the sizes listed with it. *)
Lemma valid_vectors :
  Forall (fun t =>
            readEOF1Header (Hex2Bytes (Tests.code t))
            = Val (mkHeader (Tests.codeSize t) (Tests.dataSize t), None))
    Tests.eof1ValidTests.
Proof. repeat constructor. Qed.

(** Every vector of [notEOFTests] and [eof1InvalidTests] fails with the
    error listed with it. *)
Lemma invalid_vectors (Error : error -> string) :
  Forall (fun t =>
            exists e,
              readEOF1Header (Hex2Bytes (Tests.icode t))
              = Val (emptyHeader, Some e) /\
              Tests.error t = Error e)
    (Tests.notEOFTests Error ++ Tests.eof1InvalidTests Error).
Proof.
  unfold Tests.notEOFTests, Tests.eof1InvalidTests. cbn [app].
  repeat (constructor;
          [eexists; split; [|reflexivity]; vm_compute; reflexivity|]).
  constructor.
Qed.

(** X10: [TestReadEOF1Header] passes, whatever the messages of the errors.
    Each of the 6 vectors of [eof1ValidTests] parses without error to the
    sizes listed with it, and each of the 33 vectors of [notEOFTests] and
    [eof1InvalidTests] fails with the error listed with it. *)
Theorem TestReadEOF1Header_passes (Error : error -> string) :
  Tests.TestReadEOF1Header Error = Val false.
Proof.
  unfold Tests.TestReadEOF1Header.
  rewrite (readValidLoop_pass _ _ valid_vectors). cbn [bind].
  apply readInvalidLoop_pass, invalid_vectors.
Qed.

(** X11: [TestValidateEOF] passes: [validateEOF] holds of each vector of
    [eof1ValidTests] and of none of [notEOFTests] and [eof1InvalidTests]. *)
Theorem TestValidateEOF_passes (Error : error -> string) :
  Tests.TestValidateEOF Error = Val false.
Proof.
  unfold Tests.TestValidateEOF.
  rewrite validateValidLoop_pass.
  - cbn [bind]. apply validateInvalidLoop_pass.
    eapply Forall_impl; [|apply (invalid_vectors Error)].
    intros t (e & Ht & _). now apply validateEOF_of_error with emptyHeader e.
  - eapply Forall_impl; [|apply valid_vectors].
    intros t Ht. eapply validateEOF_of_header. exact Ht.
Qed.

Example Hex2Bytes_minimal :
  Hex2Bytes "EFCAFE010100010000" = minimalContainer.
Proof. reflexivity. Qed.

Example Hex2Bytes_lower_case :
  Hex2Bytes "efcafe01" = [xef; xca; xfe; x01].
Proof. reflexivity. Qed.

(** ** The detector and the validator *)

(** X12: what [validateEOF] accepts, [isEOFCode] recognises: a buffer that
    is not EOF code by its first three bytes is never a valid container. *)
Theorem valid_is_EOF_code (code : list byte) :
  validateEOF code = Val true -> isEOFCode code = Val true.
Proof.
  intros H. unfold validateEOF in H.
  destruct (readEOF1Header_total code) as ([h [e|]] & Hr); rewrite Hr in H;
    cbn [bind snd] in H; [discriminate|].
  apply readEOF1Header_accept in Hr as ((Hf & Hm & _) & _).
  apply isEOFCode_true. now split.
Qed.

Lemma valid_is_EOF_code_witness :
  validateEOF minimalContainer = Val true /\
  isEOFCode minimalContainer = Val true.
Proof.
  split; [reflexivity|].
  apply (valid_is_EOF_code minimalContainer). reflexivity.
Defined.
